(** * Employee statistics service: a shallow embedding and its properties

    The development follows [app/services/statistics.py], the response
    models of [app/models/responses.py] and the routes of
    [app/api/endpoints.py].

    Conventions of the embedding.
    - A DataFrame is the ordered list of its rows; a column is the list of
      one field of the rows.
    - A float64 cell is an [option Qc]: [None] is NaN, [Some q] a finite
      value (rounding is not modelled).  An object cell holding text is an
      [option string], [None] being the missing marker (NaN or None).
    - Python integers are [Z]; [//] is [Z.div], which floors like Python's.
    - A Python dict is an association list in insertion order.
    - A call that raises returns [Err e]. *)

From Stdlib Require Import QArith Qcanon Qround Lqa Ascii String.
From stdpp Require Import base numbers list strings sorting.

Open Scope Z_scope.

(** ** Outcomes *)

Inductive error : Type :=
  | HTTPException (status_code : Z) (detail : string)
  | ZeroDivisionError
  | ResponseValidationError
  | SourceError
  | KeyError (key : string).

Inductive result (A : Type) : Type :=
  | Ok (a : A)
  | Err (e : error).
Arguments Ok {A} a.
Arguments Err {A} e.

Definition NotFound : error := HTTPException 404 "Page out of range".

Definition result_map {A B} (f : A → B) (r : result A) : result B :=
  match r with
  | Ok a => Ok (f a)
  | Err e => Err e
  end.

(** ** Data model *)

Record date : Type := Date { year : Z; month : Z; day : Z }.

(** One row of the DataFrame after [load_dataframe]'s preprocessing. *)
Record Row : Type := mkRow {
  first_name : string;
  last_name : string;
  salary : option Qc;
  years_of_experience : option Qc;
  date_of_birth : option date;
  gender : option string;
  industry : option string;
  age : option Z
}.

Definition DataFrame : Type := list Row.

(** [responses.PersonRecord]. *)
Record PersonRecord : Type := mkPersonRecord {
  pr_first_name : string;
  pr_last_name : string;
  pr_salary : option Qc;
  pr_years_of_experience : option Qc;
  pr_industry : option string
}.

(** [responses.PaginationMeta]. *)
Record PaginationMeta : Type := mkPaginationMeta {
  total_records : Z;
  current_page : Z;
  total_pages : Z;
  next_page : option Z;
  prev_page : option Z
}.

(** [responses.PaginatedDataResponse]. *)
Record PaginatedDataResponse : Type := mkPaginatedDataResponse {
  data : list PersonRecord;
  pagination : PaginationMeta
}.

(** ** Python slicing *)

(** Normalisation of one slice bound against a sequence of length [n]:
    a negative bound counts from the end, and every bound is clamped to
    [0, n]. *)
Definition slice_bound (n i : Z) : Z :=
  if decide (i < 0) then Z.max (i + n) 0 else Z.min i n.

(** [l[start:stop]], also [df.iloc[start:stop]]. *)
Definition py_slice {A} (l : list A) (start stop : Z) : list A :=
  let n := Z.of_nat (length l) in
  let s := slice_bound n start in
  let e := slice_bound n stop in
  take (Z.to_nat (e - s)) (drop (Z.to_nat s) l).

(** [df.head(n)] is [df.iloc[:n]]. *)
Definition head {A} (l : list A) (n : Z) : list A := py_slice l 0 n.

(** ** Paginated listing *)

(** Validation of one record dict of [to_dict(orient="records")] against
    [PersonRecord]: the five declared fields are kept, the other keys are
    ignored.  The names of a [Row] are text, so the two required fields are
    always accepted. *)
Definition person_of_row (r : Row) : PersonRecord :=
  {| pr_first_name := first_name r;
     pr_last_name := last_name r;
     pr_salary := salary r;
     pr_years_of_experience := years_of_experience r;
     pr_industry := industry r |}.

(** [get_paginated_data].  [.replace({nan: None})] changes nothing in the
    embedding, where NaN and None are the same marker. *)
Definition get_paginated_data (df : DataFrame) (offset limit : Z)
  : result PaginatedDataResponse :=
  let total := Z.of_nat (length df) in
  if decide (total ≤ offset) then Err NotFound
  else
    let page_data := py_slice df offset (offset + limit) in
    if decide (limit = 0) then Err ZeroDivisionError
    else
      let current := offset `div` limit + 1 in
      let pages := (total + limit - 1) `div` limit in
      let next := if decide (current < pages) then Some (current + 1) else None in
      let prev := if decide (1 < current) then Some (current - 1) else None in
      Ok {| data := person_of_row <$> page_data;
            pagination := {| total_records := total;
                             current_page := current;
                             total_pages := pages;
                             next_page := next;
                             prev_page := prev |} |}.

(** ** Library kernels

    The service delegates sorting, square roots and text parsing to numpy
    and pandas.  Their documented contracts are the interface below.
    [argsort] is numpy's [argsort] with [kind="quicksort"], the default of
    every [sort_values] and [value_counts] call of the service: it returns
    a permutation of the positions that puts the keys in ascending order,
    and quicksort promises nothing about the relative order of equal
    keys. *)

(** [a[idx]] for an integer index array. *)
Definition fancy_index {A} (l : list A) (idx : list nat) : list A :=
  omap (λ i, l !! i) idx.

(** [a[mask]] for a boolean mask. *)
Fixpoint bool_index {A} (l : list A) (mask : list bool) : list A :=
  match l, mask with
  | x :: l', b :: mask' =>
      if b then x :: bool_index l' mask' else bool_index l' mask'
  | _, _ => []
  end.

(** The operations of the libraries and what their documentation promises
    of them: [argsort] returns a permutation of the positions under which
    the keys are in ascending order, and the square root of zero is
    zero. *)
Class Kernel : Type := {
  argsort : ∀ {A : Type}, (A → A → bool) → list A → list nat;
  fsqrt : Qc → Qc;
  parse_float : string → option Qc;
  parse_date : string → option date;
  argsort_perm : ∀ A (leb : A → A → bool) (l : list A),
    argsort leb l ≡ₚ seq 0 (length l);
  argsort_sorted : ∀ A (leb : A → A → bool) (l : list A),
    (∀ x y, leb x y ∨ leb y x) →
    (∀ x y z, leb x y → leb y z → leb x z) →
    StronglySorted (λ x y, leb x y) (fancy_index l (argsort leb l));
  fsqrt_0 : fsqrt 0%Qc = 0%Qc
}.

Definition Qcleb (x y : Qc) : bool := bool_decide (x ≤ y)%Qc.

(** ** Sorting a frame by one column *)

Definition isna {A} (x : option A) : bool :=
  match x with None => true | Some _ => false end.

(** [pandas.core.sorting.nargsort] with [na_position="last"]: the missing
    keys are set aside, the others are sorted by [argsort] (for a
    descending sort on the reversed array, the outcome reversed again), and
    the positions of the missing keys are appended in their own order. *)
Definition nargsort `{Kernel} {A} (leb : A → A → bool) (ascending : bool)
    (items : list (option A)) : list nat :=
  let mask := isna <$> items in
  let idx := seq 0 (length items) in
  let non_nans := bool_index items (negb <$> mask) in
  let non_nan_idx := bool_index idx (negb <$> mask) in
  let nan_idx := bool_index idx mask in
  let non_nans := omap id (if ascending then non_nans else reverse non_nans) in
  let non_nan_idx := if ascending then non_nan_idx else reverse non_nan_idx in
  let indexer := fancy_index non_nan_idx (argsort leb non_nans) in
  let indexer := if ascending then indexer else reverse indexer in
  indexer ++ nan_idx.

(** [obj.sort_values(by=..., ascending=...)] for a float column [by]. *)
Definition sort_values `{Kernel} {R} (by_ : R → option Qc) (ascending : bool)
    (rows : list R) : list R :=
  fancy_index rows (nargsort Qcleb ascending (by_ <$> rows)).

(** ** Top earners and top experienced *)

(** The four columns kept by [get_top_earners] and [get_top_experienced];
    [te_value] is [salary], respectively [years_of_experience]. *)
Record TopRecord : Type := mkTopRecord {
  te_first_name : string;
  te_last_name : string;
  te_value : option Qc;
  te_industry : option string
}.

Definition top_columns (by_ : Row → option Qc) (r : Row) : TopRecord :=
  {| te_first_name := first_name r;
     te_last_name := last_name r;
     te_value := by_ r;
     te_industry := industry r |}.

Definition get_top_earners `{Kernel} (df : DataFrame) (n : Z) : list TopRecord :=
  let top := head (sort_values salary false df) n in
  top_columns salary <$> top.

Definition get_top_experienced `{Kernel} (df : DataFrame) (n : Z)
  : list TopRecord :=
  let top := head (sort_values years_of_experience false df) n in
  top_columns years_of_experience <$> top.

(** ** Frequency tables *)

(** One step of the hash table behind [value_counts]: a key seen before has
    its count incremented in place, a new key is appended.  Counts are
    natural numbers. *)
Fixpoint bump {A} `{EqDecision A} (k : A) (t : list (A * nat))
  : list (A * nat) :=
  match t with
  | [] => [(k, 1%nat)]
  | (k', c) :: t' =>
      if decide (k = k') then (k', S c) :: t' else (k', c) :: bump k t'
  end.

(** Keys in order of first appearance, each with its number of
    occurrences. *)
Definition value_count {A} `{EqDecision A} (values : list A) : list (A * nat) :=
  foldl (λ t k, bump k t) [] values.

(** [Series.value_counts(dropna=...)]: the table of [value_count], sorted
    by descending count through [Series.sort_values(ascending=False)]. *)
Definition value_counts `{Kernel} {A} `{EqDecision A} (dropna : bool)
    (col : list (option A)) : list (option A * nat) :=
  let values := if dropna then bool_index col (negb ∘ isna <$> col) else col in
  let result := value_count values in
  fancy_index result (nargsort Nat.leb false (Some ∘ snd <$> result)).

Definition get_industry_distribution `{Kernel} (df : DataFrame) (top_n : Z)
  : list (option string * nat) :=
  head (value_counts true (industry <$> df)) top_n.

Definition get_gender_distribution `{Kernel} (df : DataFrame)
  : list (option string * nat) :=
  value_counts false (gender <$> df).

(** Reading a dict. *)
Fixpoint dict_get {K V} `{EqDecision K} (k : K) (d : list (K * V)) : option V :=
  match d with
  | [] => None
  | (k', v) :: d' => if decide (k = k') then Some v else dict_get k d'
  end.

(** ** Descriptive statistics *)

Definition Qsum (l : list Qc) : Qc := foldr Qcplus 0%Qc l.

Definition Qmean (l : list Qc) : Qc :=
  (Qsum l / Qc_of_Z (Z.of_nat (length l)))%Qc.

(** Sum of the squared deviations from the mean. *)
Definition ssqdm (l : list Qc) : Qc :=
  Qsum ((λ x, (x - Qmean l) * (x - Qmean l))%Qc <$> l).

(** Quantile [q] of the non-empty ascending list [sorted], by linear
    interpolation between the two ranked values around position
    [(n - 1) * q]. *)
Definition quantile (sorted : list Qc) (q : Qc) : option Qc :=
  let n := Z.of_nat (length sorted) in
  let h := (Qc_of_Z (n - 1) * q)%Qc in
  let lo := Qfloor h in
  let frac := (h - Qc_of_Z lo)%Qc in
  a ← sorted !! Z.to_nat lo;
  let b := default a (sorted !! Z.to_nat (lo + 1)) in
  Some (a + frac * (b - a))%Qc.

(** [Series.describe()] of a float column: the eight statistics over the
    non-missing values, NaN where a statistic is undefined. *)
Definition describe `{Kernel} (col : list (option Qc))
  : list (string * option Qc) :=
  let vals := omap id col in
  let sorted := merge_sort Qcle vals in
  let n := Z.of_nat (length vals) in
  [ ("count", Some (Qc_of_Z n));
    ("mean", if decide (n = 0) then None else Some (Qmean vals));
    ("std", if decide (n ≤ 1) then None
            else Some (fsqrt (ssqdm vals / Qc_of_Z (n - 1))%Qc));
    ("min", sorted !! 0%nat);
    ("25%", quantile sorted (Q2Qc (1 # 4)));
    ("50%", quantile sorted (Q2Qc (1 # 2)));
    ("75%", quantile sorted (Q2Qc (3 # 4)));
    ("max", last sorted) ].

(** [Series.dropna().to_dict()]: the entries whose value is not NaN. *)
Definition dropna_to_dict {K} (s : list (K * option Qc)) : list (K * Qc) :=
  omap (λ kv, (kv.1,.) <$> kv.2) s.

(** Truth value of an [Optional[str]] in a condition. *)
Definition truthy (s : option string) : bool :=
  match s with
  | None => false
  | Some s => negb (bool_decide (s = EmptyString))
  end.

(** [df[df["industry"] == industry] if industry else df]. *)
Definition industry_subset (df : DataFrame) (ind : option string) : DataFrame :=
  if truthy ind then filter (λ r, industry r = ind) df else df.

Definition get_salary_stats `{Kernel} (df : DataFrame) (ind : option string)
  : list (string * Qc) :=
  let subset := industry_subset df ind in
  dropna_to_dict (describe (salary <$> subset)).

Definition get_experience_stats `{Kernel} (df : DataFrame) (ind : option string)
  : list (string * Qc) :=
  let subset := industry_subset df ind in
  dropna_to_dict (describe (years_of_experience <$> subset)).

(** [responses.StatsResponse]: [count], [mean], [std], [min] and [max] are
    required floats; the three percentiles are optional and default to
    [None]. *)
Record StatsResponse : Type := mkStatsResponse {
  sr_count : Qc;
  sr_mean : Qc;
  sr_std : Qc;
  sr_min : Qc;
  sr_p25 : option Qc;
  sr_p50 : option Qc;
  sr_p75 : option Qc;
  sr_max : Qc
}.

(** Validation of a returned dict against [response_model=StatsResponse]:
    a required field that is absent is a validation error, which the
    framework reports as a server error. *)
Definition validate_StatsResponse (d : list (string * Qc)) : result StatsResponse :=
  match dict_get "count" d, dict_get "mean" d, dict_get "std" d,
        dict_get "min" d, dict_get "max" d with
  | Some c, Some m, Some s, Some mn, Some mx =>
      Ok {| sr_count := c; sr_mean := m; sr_std := s; sr_min := mn;
            sr_p25 := dict_get "25%" d;
            sr_p50 := dict_get "50%" d;
            sr_p75 := dict_get "75%" d;
            sr_max := mx |}
  | _, _, _, _, _ => Err ResponseValidationError
  end.

(** Route [/salary/stats]. *)
Definition salary_stats `{Kernel} (df : DataFrame) (ind : option string)
  : result StatsResponse :=
  validate_StatsResponse (get_salary_stats df ind).

(** Route [/experience/stats]. *)
Definition experience_stats `{Kernel} (df : DataFrame) (ind : option string)
  : result StatsResponse :=
  validate_StatsResponse (get_experience_stats df ind).

(** ** Correlations *)

(** Pearson correlation of two columns over the rows where both are
    present, as [DataFrame.corr()] computes it with [min_periods=1]: NaN
    without observations or when the divisor vanishes. *)
Definition nancorr `{Kernel} (xs ys : list (option Qc)) : option Qc :=
  let pairs := omap (λ xy, x ← xy.1; y ← xy.2; Some (x, y)) (zip xs ys) in
  let vx := fst <$> pairs in
  let vy := snd <$> pairs in
  if decide (length pairs < 1)%nat then None
  else
    let covxy :=
      Qsum ((λ xy, (xy.1 - Qmean vx) * (xy.2 - Qmean vy))%Qc <$> pairs) in
    let divisor := fsqrt (ssqdm vx * ssqdm vy)%Qc in
    if decide (divisor = 0%Qc) then None else Some (covxy / divisor)%Qc.

(** Nearest integer, halves to the even neighbour. *)
Definition round_half_even (q : Qc) : Z :=
  let f := Qfloor q in
  let d := (q - Qc_of_Z f)%Qc in
  if decide (d < Q2Qc (1 # 2))%Qc then f
  else if decide (Q2Qc (1 # 2) < d)%Qc then f + 1
  else if Z.even f then f else f + 1.

(** [round(x, 4)]. *)
Definition round4 (x : Qc) : Qc :=
  (Qc_of_Z (round_half_even (x * Qc_of_Z 10000)) / Qc_of_Z 10000)%Qc.

(** [responses.CorrelationResponse]; the dict built by
    [get_correlations] has the same two keys, each a float or [None]. *)
Record CorrelationResponse : Type := mkCorrelationResponse {
  salary_vs_experience : option Qc;
  experience_vs_age : option Qc
}.

Definition get_correlations `{Kernel} (df : DataFrame) : CorrelationResponse :=
  let corr1 := nancorr (salary <$> df) (years_of_experience <$> df) in
  let corr2 :=
    nancorr (years_of_experience <$> df) ((λ r, Qc_of_Z <$> age r) <$> df) in
  {| salary_vs_experience := round4 <$> corr1;
     experience_vs_age := round4 <$> corr2 |}.

(** Route [/correlations]: both fields of the model accept [None]. *)
Definition correlations `{Kernel} (df : DataFrame) : result CorrelationResponse :=
  Ok (get_correlations df).

(** ** Loading the dataset *)

(** A JSON value in a numeric or date field of the source file. *)
Inductive json : Type :=
  | JNull
  | JNum (q : Qc)
  | JStr (s : string).

Record RawRow : Type := mkRawRow {
  raw_first_name : string;
  raw_last_name : string;
  raw_salary : json;
  raw_years_of_experience : json;
  raw_date_of_birth : json;
  raw_gender : option string;
  raw_industry : option string
}.

(** [pd.to_numeric(..., errors="coerce")] on one cell. *)
Definition to_numeric `{Kernel} (v : json) : option Qc :=
  match v with
  | JNull => None
  | JNum q => Some q
  | JStr s => parse_float s
  end.

(** [pd.to_datetime(..., format="%d/%m/%Y", errors="coerce")] on one cell. *)
Definition to_datetime `{Kernel} (v : json) : option date :=
  match v with
  | JStr s => parse_date s
  | _ => None
  end.

Definition calculate_age (today born : date) : Z :=
  let before :=
    bool_decide (month today < month born ∨
                 (month today = month born ∧ day today < day born)) in
  year today - year born - (if before then 1 else 0).

(** One record of the file as a row of the frame. *)
Definition preprocess_row `{Kernel} (today : date) (r : RawRow) : Row :=
  let born := to_datetime (raw_date_of_birth r) in
  {| first_name := raw_first_name r;
     last_name := raw_last_name r;
     salary := to_numeric (raw_salary r);
     years_of_experience := to_numeric (raw_years_of_experience r);
     date_of_birth := born;
     gender := raw_gender r;
     industry := raw_industry r;
     age := calculate_age today <$> born |}.

(** The body of [load_dataframe] after the file has been read.  A file
    that holds no record gives a frame without columns, and the first
    column access, [df["salary"]], raises. *)
Definition preprocess `{Kernel} (today : date) (raw : list RawRow)
  : result DataFrame :=
  match raw with
  | [] => Err (KeyError "salary")
  | _ :: _ => Ok (preprocess_row today <$> raw)
  end.

(** The process: the source file ([None] when it is missing or is not a
    record collection), the date of the clock, the object store, the memo
    cell of [@lru_cache] and the number of times the file has been opened.
    The file and the date stay as they are while the process runs. *)
Record World : Type := mkWorld {
  source : option (list RawRow);
  today : date;
  heap : list DataFrame;
  cache : option nat;
  reads : nat
}.

Definition initial (src : option (list RawRow)) (now : date) : World :=
  {| source := src; today := now; heap := []; cache := None; reads := 0 |}.

(** What the body of [load_dataframe] gives in this process. *)
Definition body `{Kernel} (w : World) : result DataFrame :=
  match source w with
  | None => Err SourceError
  | Some raw => preprocess (today w) raw
  end.

(** A call of [load_dataframe()] under [@lru_cache] has two steps, and
    other calls can run between them.  First the wrapper looks the call
    up: a hit returns the cached object at once; on a miss the body
    starts, which opens the file. *)
Inductive started : Type :=
  | Hit (id : nat)
  | Miss (out : result DataFrame).

Definition start_call `{Kernel} (w : World) : started * World :=
  match cache w with
  | Some id => (Hit id, w)
  | None =>
      (Miss (body w),
       {| source := source w; today := today w; heap := heap w;
          cache := cache w; reads := S (reads w) |})
  end.

(** Then the body ends.  An exception goes to the caller and nothing is
    remembered.  A frame is a new object, which the call returns; the
    wrapper stores it unless another call has filled the cache
    meanwhile. *)
Definition end_call (out : result DataFrame) (w : World)
  : result nat * World :=
  match out with
  | Err e => (Err e, w)
  | Ok df =>
      let id := length (heap w) in
      (Ok id,
       {| source := source w; today := today w; heap := heap w ++ [df];
          cache := Some (default id (cache w)); reads := reads w |})
  end.

(** A call that nothing interrupts. *)
Definition load_dataframe `{Kernel} (w : World) : result nat * World :=
  match start_call w with
  | (Hit id, w') => (Ok id, w')
  | (Miss out, w') => end_call out w'
  end.

(** A query function of the service: [df = load_dataframe()] followed by a
    computation that reads [df] and builds new objects only. *)
Record query : Type := mkQuery {
  answer : Type;
  compute : DataFrame → answer
}.

Definition run_query `{Kernel} (q : query) (w : World)
  : result (answer q) * World :=
  match load_dataframe w with
  | (Ok id, w') =>
      match heap w' !! id with
      | Some df => (Ok (compute q df), w')
      | None => (Err SourceError, w')
      end
  | (Err e, w') => (Err e, w')
  end.

Definition run_all `{Kernel} (qs : list query) (w : World) : World :=
  foldl (λ w q, (run_query q w).2) w qs.

(** The query functions modelled above. *)
Definition q_paginated_data (offset limit : Z) : query :=
  {| compute := λ df, get_paginated_data df offset limit |}.
Definition q_salary_stats `{Kernel} (ind : option string) : query :=
  {| compute := λ df, get_salary_stats df ind |}.
Definition q_experience_stats `{Kernel} (ind : option string) : query :=
  {| compute := λ df, get_experience_stats df ind |}.
Definition q_industry_distribution `{Kernel} (top_n : Z) : query :=
  {| compute := λ df, get_industry_distribution df top_n |}.
Definition q_gender_distribution `{Kernel} : query :=
  {| compute := λ df, get_gender_distribution df |}.
Definition q_top_earners `{Kernel} (n : Z) : query :=
  {| compute := λ df, get_top_earners df n |}.
Definition q_top_experienced `{Kernel} (n : Z) : query :=
  {| compute := λ df, get_top_experienced df n |}.
Definition q_correlations `{Kernel} : query :=
  {| compute := λ df, get_correlations df |}.

(** ** Calls that overlap

    The routes are plain functions, which the framework runs on the
    threads of a pool, so that a call of [load_dataframe()] can start
    while another is in its body.  A run of the process is a list of
    events: thread [t] calls [load_dataframe()], or the call of thread [t]
    ends.  A thread is in one call at a time. *)
Inductive event : Type :=
  | Call (t : nat)
  | Return (t : nat).

Record Process : Type := mkProcess {
  world : World;
  running : list (nat * result DataFrame);
  returned : list (nat * result nat)
}.

Definition boot (src : option (list RawRow)) (now : date) : Process :=
  {| world := initial src now; running := []; returned := [] |}.

Definition step `{Kernel} (p : Process) (e : event) : Process :=
  match e with
  | Call t =>
      if decide (t ∈ (running p).*1) then p
      else
        match start_call (world p) with
        | (Hit id, w) =>
            {| world := w; running := running p;
               returned := returned p ++ [(t, Ok id)] |}
        | (Miss out, w) =>
            {| world := w; running := running p ++ [(t, out)];
               returned := returned p |}
        end
  | Return t =>
      match dict_get t (running p) with
      | Some out =>
          {| world := (end_call out (world p)).2;
             running := filter (λ c, c.1 ≠ t) (running p);
             returned := returned p ++ [(t, (end_call out (world p)).1)] |}
      | None => p
      end
  end.

Definition run_events `{Kernel} (es : list event) (p : Process) : Process :=
  foldl step p es.

(** ** Vocabulary of the properties *)

(** Two rows in descending order of a present key. *)
Definition key_ge {R A} (leb : A → A → bool) (key : R → option A)
    (r1 r2 : R) : Prop :=
  ∃ x y, key r1 = Some x ∧ key r2 = Some y ∧ leb y x.

(** Descending order of float cells with the missing value last. *)
Definition desc_missing_last (a b : option Qc) : Prop :=
  match a, b with
  | Some x, Some y => (y ≤ x)%Qc
  | _, None => True
  | None, Some _ => False
  end.

(** [res] is the top [n] of [df] by the column [by_]: it is the projection
    of [rows], a sub-multiset of the frame of [min(n, total)] rows in
    descending order with the missing values last; no row left out ranks
    before a selected one; and the selected rows with a missing value are
    the first such rows of the frame, in the order of the frame. *)
Definition is_top_by (by_ : Row → option Qc) (df : DataFrame) (n : Z)
    (res : list TopRecord) : Prop :=
  ∃ rows : list Row,
    res = top_columns by_ <$> rows ∧
    rows ⊆+ df ∧
    Z.of_nat (length res) = Z.min n (Z.of_nat (length df)) ∧
    StronglySorted desc_missing_last (te_value <$> res) ∧
    (∃ rest, df ≡ₚ rows ++ rest ∧
       ∀ r r', r ∈ rows → r' ∈ rest → desc_missing_last (by_ r) (by_ r')) ∧
    (∃ present k,
       rows = present ++ take k (filter (λ r, isna (by_ r)) df) ∧
       Forall (λ r, ¬ isna (by_ r)) present).

(** Number of cells of a column equal to [k]. *)
Definition occurrences {A} `{EqDecision A} (k : A) (col : list A) : nat :=
  length (filter (λ x, x = k) col).

(** Position of the first cell of a column equal to [k]. *)
Fixpoint first_index {A} `{EqDecision A} (k : A) (col : list A) : option nat :=
  match col with
  | [] => None
  | x :: col' => if decide (x = k) then Some 0%nat else S <$> first_index k col'
  end.

(** The cells counted by [value_counts]. *)
Definition counted {A} (dropna : bool) (col : list (option A))
  : list (option A) :=
  if dropna then filter (λ x, ¬ isna x) col else col.

(** Descending order of the counts of two entries. *)
Definition count_ge {A} (e1 e2 : option A * nat) : Prop := (e2.2 ≤ e1.2)%nat.

(** The world once the frame [df] has been loaded by a first call. *)
Definition loaded (raw : list RawRow) (now : date) (df : DataFrame) : World :=
  {| source := Some raw; today := now; heap := [df];
     cache := Some 0%nat; reads := 1 |}.

(** ** Sample data *)

Definition sample_row (first : string) (pay : option Z) (gen ind : option string)
  : Row :=
  {| first_name := first; last_name := "Doe";
     salary := Qc_of_Z <$> pay; years_of_experience := None;
     date_of_birth := None; gender := gen; industry := ind; age := None |}.

Definition three_rows : DataFrame :=
  [ sample_row "Ann" (Some 10) (Some "F") (Some "Tech");
    sample_row "Bob" (Some 20) None (Some "Retail");
    sample_row "Cid" None (Some "M") None ].

Definition two_equal_earners : DataFrame :=
  [ sample_row "Ann" (Some 10) (Some "F") (Some "Tech");
    sample_row "Bob" (Some 10) (Some "M") (Some "Retail") ].

Definition blank_row : Row :=
  {| first_name := "Cid"; last_name := "Doe"; salary := None;
     years_of_experience := None; date_of_birth := None;
     gender := Some "M"; industry := None; age := None |}.

Definition industry_rows (ind : string) (k : nat) : DataFrame :=
  replicate k (sample_row "Eve" (Some 10) None (Some ind)).

Definition sample_raw : list RawRow :=
  [ {| raw_first_name := "Ann"; raw_last_name := "Doe";
       raw_salary := JNum (Qc_of_Z 10);
       raw_years_of_experience := JStr "3.5";
       raw_date_of_birth := JStr "29/02/2000";
       raw_gender := Some "F"; raw_industry := Some "Tech" |};
    {| raw_first_name := "Bob"; raw_last_name := "Roe";
       raw_salary := JStr "n/a";
       raw_years_of_experience := JNull;
       raw_date_of_birth := JStr "31/04/2001";
       raw_gender := None; raw_industry := None |} ].

(** A file of one record without text to parse. *)
Definition one_record : list RawRow :=
  [ {| raw_first_name := "Ann"; raw_last_name := "Doe";
       raw_salary := JNum (Qc_of_Z 10);
       raw_years_of_experience := JNull;
       raw_date_of_birth := JNull;
       raw_gender := Some "F"; raw_industry := Some "Tech" |} ].

Definition experienced_row (first : string) (pay years : Z) : Row :=
  {| first_name := first; last_name := "Roe";
     salary := Some (Qc_of_Z pay); years_of_experience := Some (Qc_of_Z years);
     date_of_birth := None; gender := None; industry := None; age := None |}.

Definition equal_pay_rows : DataFrame :=
  [ experienced_row "Dan" 10 1; experienced_row "Eve" 10 2;
    experienced_row "Fay" 10 3 ].

(** ** A kernel

    It meets the contract of [Kernel].  The sort is an insertion sort on
    the keys paired with their positions, a new key going in front of the
    first key that is not smaller, the keys being inserted from the last to
    the first.  Text is parsed in a plain decimal syntax, and the square
    root is taken to six decimals. *)

Fixpoint insert_pair {A} (leb : A → A → bool) (p : nat * A)
    (ps : list (nat * A)) : list (nat * A) :=
  match ps with
  | [] => [p]
  | q :: ps' =>
      if leb p.2 q.2 then p :: q :: ps' else q :: insert_pair leb p ps'
  end.

Definition argsort_stable {A} (leb : A → A → bool) (l : list A) : list nat :=
  (foldr (insert_pair leb) [] (zip (seq 0 (length l)) l)).*1.

Definition sqrt6 (q : Qc) : Qc :=
  (Qc_of_Z (Z.sqrt (Qfloor (q * Qc_of_Z (10 ^ 12))%Qc)) / Qc_of_Z (10 ^ 6))%Qc.

Definition digit_of (c : ascii) : option Z :=
  let n := Z.of_nat (nat_of_ascii c) in
  if decide (48 ≤ n ≤ 57) then Some (n - 48) else None.

Fixpoint digits_value (s : string) (acc : Z) : option Z :=
  match s with
  | EmptyString => Some acc
  | String c s' => d ← digit_of c; digits_value s' (acc * 10 + d)
  end.

Definition decimal_nat (s : string) : option Z :=
  if decide (s = EmptyString) then None else digits_value s 0.

(** The text before the first [sep], and the text after it if any. *)
Fixpoint split_at (sep : ascii) (s : string) : string * option string :=
  match s with
  | EmptyString => (EmptyString, None)
  | String c s' =>
      if decide (c = sep) then (EmptyString, Some s')
      else let '(a, b) := split_at sep s' in (String c a, b)
  end.

Definition decimal_float (s : string) : option Qc :=
  let '(int_part, frac_part) := split_at "."%char s in
  i ← decimal_nat int_part;
  match frac_part with
  | None => Some (Qc_of_Z i)
  | Some f =>
      d ← decimal_nat f;
      Some (Qc_of_Z i + Qc_of_Z d / Qc_of_Z (10 ^ Z.of_nat (String.length f)))%Qc
  end.

Definition days_in_month (y m : Z) : Z :=
  if decide (m = 2) then
    if decide (y `mod` 4 = 0 ∧ (y `mod` 100 ≠ 0 ∨ y `mod` 400 = 0)) then 29 else 28
  else if decide (m = 4 ∨ m = 6 ∨ m = 9 ∨ m = 11) then 30 else 31.

Definition day_month_year (s : string) : option date :=
  let '(ds, rest) := split_at "/"%char s in
  rest ← rest;
  let '(ms, ys) := split_at "/"%char rest in
  ys ← ys;
  d ← decimal_nat ds; m ← decimal_nat ms; y ← decimal_nat ys;
  if decide (1 ≤ m ≤ 12 ∧ 1 ≤ d ≤ days_in_month y m)
  then Some (Date y m d) else None.

(** ** Further query functions and routes *)

(** [Series.unique()]: the values in order of first appearance. *)
Definition unique {A} `{EqDecision A} (values : list A) : list A :=
  foldl (λ seen x, if decide (x ∈ seen) then seen else seen ++ [x]) [] values.

(** [get_industries]: [df["industry"].dropna().unique().tolist()]. *)
Definition get_industries (df : DataFrame) : list string :=
  unique (omap id (industry <$> df)).

(** [Series.isnull().sum()] of one column. *)
Definition isnull_sum {A} (col : list (option A)) : nat :=
  length (filter (λ x, isna x) col).

(** [responses.SummaryResponse]; the dict built by [get_summary] has the
    same two keys.  [missing_values] has one entry per column of the
    frame, the fields of the source file followed by [age]. *)
Record SummaryResponse : Type := mkSummaryResponse {
  record_count : Z;
  missing_values : list (string * nat)
}.

(** [get_summary].  The names of a [Row] are text, never missing. *)
Definition get_summary (df : DataFrame) : SummaryResponse :=
  {| record_count := Z.of_nat (length df);
     missing_values :=
       [ ("first_name", isnull_sum (Some ∘ first_name <$> df));
         ("last_name", isnull_sum (Some ∘ last_name <$> df));
         ("salary", isnull_sum (salary <$> df));
         ("years_of_experience", isnull_sum (years_of_experience <$> df));
         ("date_of_birth", isnull_sum (date_of_birth <$> df));
         ("gender", isnull_sum (gender <$> df));
         ("industry", isnull_sum (industry <$> df));
         ("age", isnull_sum (age <$> df)) ] |}.

Section person_lookup.
(** Python's [str.lower]. *)
Variable lower : string → string.

(** [get_individual_record]: the rows whose two names equal the arguments
    once all are lower-cased, reduced to the five columns of
    [PersonRecord]. *)
Definition get_individual_record (df : DataFrame) (first last : string)
  : list PersonRecord :=
  let matched :=
    filter (λ r, lower (first_name r) = lower first ∧
                 lower (last_name r) = lower last) df in
  person_of_row <$> matched.
End person_lookup.

(** Route [/employees]: [page] and [limit] are at least 1 when the body
    runs. *)
Definition get_all (df : DataFrame) (page limit : Z)
  : result PaginatedDataResponse :=
  let offset := (page - 1) * limit in
  get_paginated_data df offset limit.

(** Validation of a returned dict against a [RootModel[Dict[str, int]]]
    response model: a key that is not text is a validation error. *)
Definition validate_distribution (d : list (option string * nat))
  : result (list (string * nat)) :=
  if decide (Forall (λ kv, ¬ isna kv.1) d)
  then Ok (omap (λ kv, (., kv.2) <$> kv.1) d)
  else Err ResponseValidationError.

(** Route [/industry/distribution]. *)
Definition industry_distribution `{Kernel} (df : DataFrame) (top_n : Z)
  : result (list (string * nat)) :=
  validate_distribution (get_industry_distribution df top_n).

(** Route [/gender/distribution]. *)
Definition gender_distribution `{Kernel} (df : DataFrame)
  : result (list (string * nat)) :=
  validate_distribution (get_gender_distribution df).

(** The records of a listing, none when the listing failed. *)
Definition page_records (r : result PaginatedDataResponse) : list PersonRecord :=
  match r with
  | Ok resp => data resp
  | Err _ => []
  end.

(** In the column [col] the value [a] appears for the first time before
    the value [b] does. *)
Definition first_seen_before {A} `{EqDecision A} (col : list A) (a b : A)
  : Prop :=
  ∃ i j : nat,
    first_index a col = Some i ∧ first_index b col = Some j ∧ (i < j)%nat.

(** The date [a] is not after the date [b]. *)
Definition date_le (a b : date) : Prop :=
  year a < year b ∨
  (year a = year b ∧
   (month a < month b ∨ (month a = month b ∧ day a ≤ day b))).

(** The rows of a frame in which both cells of a pair of columns are
    present, as the pairs of these cells. *)
Definition paired (x y : Row → option Qc) (df : DataFrame) : list (Qc * Qc) :=
  omap (λ r, a ← x r; b ← y r; Some (a, b)) df.

(** ASCII lower-casing, a [str.lower] for the sample data. *)
Definition ascii_lower (c : ascii) : ascii :=
  let n := nat_of_ascii c in
  if decide (65 ≤ n ≤ 90)%nat then ascii_of_nat (n + 32) else c.

Fixpoint string_lower (s : string) : string :=
  match s with
  | EmptyString => EmptyString
  | String c s' => String (ascii_lower c) (string_lower s')
  end.

(** * Properties *)

(** ** The kernel meets the contract *)

Section insertion.
Context {A : Type} (leb : A → A → bool).
Implicit Types (l : list A) (p : nat * A) (ps : list (nat * A)).

Let R : relation (nat * A) := λ p q, Is_true (leb p.2 q.2).

Hypothesis leb_total : ∀ x y, leb x y ∨ leb y x.
Hypothesis leb_trans : ∀ x y z, leb x y → leb y z → leb x z.

Lemma insert_pair_perm p ps : insert_pair leb p ps ≡ₚ p :: ps.
Proof.
  induction ps as [|q ps IH]; [done|]. simpl.
  destruct (leb p.2 q.2); [done|]. by rewrite IH, Permutation_swap.
Qed.

Lemma insert_pair_sorted p ps :
  StronglySorted R ps → StronglySorted R (insert_pair leb p ps).
Proof.
  induction 1 as [|q ps Hs IH Hq]; simpl.
  { repeat constructor. }
  destruct (leb p.2 q.2) eqn:Hpq.
  - constructor; [by constructor|]. constructor.
    + unfold R. by rewrite Hpq.
    + eapply Forall_impl; [exact Hq|]. intros r Hr. unfold R in *.
      eapply leb_trans; [|exact Hr]. by rewrite Hpq.
  - constructor; [done|]. rewrite insert_pair_perm. constructor; [|done].
    unfold R. destruct (leb_total p.2 q.2) as [H|H]; [|done].
    by rewrite Hpq in H.
Qed.

Lemma foldr_insert_perm ps : foldr (insert_pair leb) [] ps ≡ₚ ps.
Proof.
  induction ps as [|p ps IH]; [done|]. simpl.
  by rewrite insert_pair_perm, IH.
Qed.

Lemma foldr_insert_sorted ps :
  StronglySorted R (foldr (insert_pair leb) [] ps).
Proof.
  induction ps; simpl; [constructor|by apply insert_pair_sorted].
Qed.

Lemma fancy_index_pairs l ps :
  Forall (λ p, l !! p.1 = Some p.2) ps → fancy_index l ps.*1 = ps.*2.
Proof.
  unfold fancy_index. induction 1 as [|[i x] ps Hp _ IH]; [done|].
  rewrite !fmap_cons. cbn [omap list_omap fst snd] in *.
  by rewrite Hp, IH.
Qed.

Lemma zip_seq_lookup l :
  Forall (λ p, l !! p.1 = Some p.2) (zip (seq 0 (length l)) l).
Proof.
  apply Forall_forall. intros [i x] Hin.
  apply list_elem_of_lookup in Hin as [k Hk].
  apply lookup_zip_with_Some in Hk as (i' & x' & [= <- <-] & Hi & Hx).
  apply lookup_seq in Hi as [-> _]. done.
Qed.

Lemma sorted_pairs_keys l ps :
  ps ≡ₚ zip (seq 0 (length l)) l → StronglySorted R ps →
  StronglySorted (λ x y, leb x y) (fancy_index l ps.*1).
Proof.
  intros Hps Hsorted. rewrite (fancy_index_pairs l).
  - by apply (StronglySorted_fmap snd R); [intros p q|].
  - rewrite Hps. apply zip_seq_lookup.
Qed.
End insertion.

Lemma sqrt6_0 : sqrt6 0%Qc = 0%Qc.
Proof. by apply Qc_is_canon. Qed.

Program Definition stable_kernel : Kernel := {|
  argsort := @argsort_stable;
  fsqrt := sqrt6;
  parse_float := decimal_float;
  parse_date := day_month_year;
  fsqrt_0 := sqrt6_0
|}.
Next Obligation.
  intros A leb l. unfold argsort_stable.
  rewrite foldr_insert_perm, fst_zip; [done|]. by rewrite length_seq.
Qed.
Next Obligation.
  intros A leb l Htot Htrans. apply sorted_pairs_keys.
  - apply foldr_insert_perm.
  - by apply foldr_insert_sorted.
Qed.

(** ** Properties of the paginated listing *)

Section pagination.
Implicit Types (df : DataFrame) (offset limit : Z).

Lemma py_slice_window {A} (l : list A) (s k : Z) :
  0 ≤ s → 0 ≤ k →
  py_slice l s (s + k) = take (Z.to_nat k) (drop (Z.to_nat s) l).
Proof.
  intros Hs Hk. unfold py_slice, slice_bound.
  repeat case_decide; try lia.
  destruct (decide (s + k ≤ Z.of_nat (length l))) as [Hin|Hout].
  - rewrite (Z.min_l (s + k)), (Z.min_l s) by lia.
    f_equal. lia.
  - destruct (decide (s ≤ Z.of_nat (length l))) as [Hs'|Hs'].
    + rewrite (Z.min_r (s + k)), (Z.min_l s) by lia.
      rewrite !take_ge; [done|rewrite length_drop; lia..].
    + rewrite (Z.min_r (s + k)), (Z.min_r s) by lia.
      rewrite !drop_ge; [by rewrite !take_nil|lia..].
Qed.

Lemma get_paginated_data_ok df offset limit :
  1 ≤ limit → 0 ≤ offset < Z.of_nat (length df) →
  get_paginated_data df offset limit =
    Ok {| data := person_of_row <$>
                    take (Z.to_nat limit) (drop (Z.to_nat offset) df);
          pagination :=
            {| total_records := Z.of_nat (length df);
               current_page := offset `div` limit + 1;
               total_pages := (Z.of_nat (length df) + limit - 1) `div` limit;
               next_page :=
                 if decide (offset `div` limit + 1 <
                            (Z.of_nat (length df) + limit - 1) `div` limit)
                 then Some (offset `div` limit + 1 + 1) else None;
               prev_page :=
                 if decide (1 < offset `div` limit + 1)
                 then Some (offset `div` limit + 1 - 1) else None |} |}.
Proof.
  intros Hl Ho. unfold get_paginated_data.
  rewrite decide_False by lia. rewrite decide_False by lia.
  by rewrite py_slice_window by lia.
Qed.
End pagination.

(** C1. For [limit >= 1] and [offset >= 0] the paginated listing raises the
    404 "not found" exception exactly when [offset] is at least the number
    of records, and in that case the outcome carries no response (hence no
    record data). *)
Theorem C1_not_found_iff (df : DataFrame) (offset limit : Z) :
  1 ≤ limit → 0 ≤ offset →
  (get_paginated_data df offset limit = Err NotFound
     ↔ Z.of_nat (length df) ≤ offset) ∧
  (Z.of_nat (length df) ≤ offset →
     ∀ resp, get_paginated_data df offset limit ≠ Ok resp).
Proof.
  intros Hl Ho. unfold get_paginated_data. split.
  - case_decide; [done|].
    rewrite decide_False by lia. split; [discriminate|lia].
  - intros Hge resp. by rewrite decide_True.
Qed.

Lemma C1_not_found_iff_witness :
  (1 ≤ 10 ∧ 0 ≤ 3) ∧ get_paginated_data three_rows 3 10 = Err NotFound.
Proof.
  split; [lia|].
  apply (C1_not_found_iff three_rows 3 10); simpl; lia.
Defined.

(** C4. For [limit >= 1] and [0 <= offset < total] the listing succeeds and
    its data is the run of [min(limit, total - offset)] consecutive records
    of the dataset that starts at index [offset], in dataset order, each
    record as the [PersonRecord] the response model keeps of it. *)
Theorem C4_page_is_contiguous_slice (df : DataFrame) (offset limit : Z) :
  1 ≤ limit → 0 ≤ offset < Z.of_nat (length df) →
  ∃ resp, get_paginated_data df offset limit = Ok resp ∧
    data resp =
      person_of_row <$> take (Z.to_nat limit) (drop (Z.to_nat offset) df) ∧
    Z.of_nat (length (data resp)) =
      Z.min limit (Z.of_nat (length df) - offset) ∧
    ∀ i : nat, (i < length (data resp))%nat →
      data resp !! i = person_of_row <$> df !! (Z.to_nat offset + i)%nat.
Proof.
  intros Hl Ho. eexists. split; [by apply get_paginated_data_ok|].
  cbn [data]. split; [done|]. split.
  - rewrite length_fmap, length_take, length_drop. lia.
  - intros i Hi. rewrite length_fmap, length_take in Hi.
    rewrite list_lookup_fmap, lookup_take_lt by lia.
    by rewrite lookup_drop.
Qed.

Lemma C4_page_is_contiguous_slice_witness :
  (1 ≤ 5 ∧ 0 ≤ 1 < Z.of_nat (length three_rows)) ∧
  ∃ resp, get_paginated_data three_rows 1 5 = Ok resp ∧
    pr_first_name <$> data resp = ["Bob"; "Cid"].
Proof.
  split; [simpl; lia|].
  destruct (C4_page_is_contiguous_slice three_rows 1 5) as (resp & Hr & Hd & _);
    [lia|simpl; lia|].
  exists resp. split; [exact Hr|]. rewrite Hd. reflexivity.
Defined.

(** C5. For [limit >= 1] and [0 <= offset < total] the metadata of the
    listing has [current_page = offset // limit + 1], hence
    [current_page * limit - limit <= offset < current_page * limit];
    [total_pages] is the ceiling of [total / limit], the least number of
    pages of [limit] records that hold [total] records; the current page
    lies between 1 and [total_pages]; [next_page] is [None] exactly on the
    last page and [prev_page] is [None] exactly on the first page, and
    otherwise they are the neighbouring page numbers.  For an offset that
    is a multiple of [limit], as the route computes it, the last page is
    the one whose slice reaches the end of the dataset. *)
Theorem C5_pagination_metadata (df : DataFrame) (offset limit : Z) :
  1 ≤ limit → 0 ≤ offset < Z.of_nat (length df) →
  ∃ resp, get_paginated_data df offset limit = Ok resp ∧
    let m := pagination resp in
    let total := Z.of_nat (length df) in
    total_records m = total ∧
    current_page m = offset `div` limit + 1 ∧
    current_page m * limit - limit ≤ offset < current_page m * limit ∧
    (total_pages m - 1) * limit < total ≤ total_pages m * limit ∧
    1 ≤ current_page m ≤ total_pages m ∧
    (next_page m = None ↔ current_page m = total_pages m) ∧
    (prev_page m = None ↔ current_page m = 1) ∧
    (current_page m < total_pages m → next_page m = Some (current_page m + 1)) ∧
    (1 < current_page m → prev_page m = Some (current_page m - 1)) ∧
    (offset `mod` limit = 0 →
       (current_page m = total_pages m ↔ total ≤ offset + limit)).
Proof.
  intros Hl Ho. eexists. split; [by apply get_paginated_data_ok|].
  cbn [pagination total_records current_page total_pages next_page prev_page].
  set (total := Z.of_nat (length df)) in *.
  pose proof (Z.div_mod offset limit ltac:(lia)) as Hdm.
  pose proof (Z.mul_div_le offset limit ltac:(lia)) as Hq1.
  pose proof (Z.mul_succ_div_gt offset limit ltac:(lia)) as Hq2.
  pose proof (Z.mul_div_le (total + limit - 1) limit ltac:(lia)) as Hp1.
  pose proof (Z.mul_succ_div_gt (total + limit - 1) limit ltac:(lia)) as Hp2.
  set (q := offset `div` limit) in *.
  set (p := (total + limit - 1) `div` limit) in *.
  assert (q < p) by nia.
  repeat split; try (repeat case_decide; (done || lia || nia)).
Qed.

Lemma C5_pagination_metadata_witness :
  (1 ≤ 2 ∧ 0 ≤ 2 < Z.of_nat (length three_rows)) ∧
  ∃ resp, get_paginated_data three_rows 2 2 = Ok resp ∧
    current_page (pagination resp) = 2 ∧
    total_pages (pagination resp) = 2 ∧
    next_page (pagination resp) = None ∧
    prev_page (pagination resp) = Some 1.
Proof.
  split; [simpl; lia|].
  destruct (C5_pagination_metadata three_rows 2 2)
    as (resp & Hr & _); [lia|simpl; lia|].
  exists resp. split; [exact Hr|].
  injection Hr as <-. repeat split.
Defined.

(** The listing of a dataset of 25 records by pages of 10. *)
Example pagination_of_25_records :
  let df := replicate 25 blank_row in
  let summary resp := (length (data resp), pagination resp) in
  result_map summary (get_paginated_data df 0 10)
    = Ok (10%nat, {| total_records := 25; current_page := 1; total_pages := 3;
                     next_page := Some 2; prev_page := None |}) ∧
  result_map summary (get_paginated_data df 20 10)
    = Ok (5%nat, {| total_records := 25; current_page := 3; total_pages := 3;
                    next_page := None; prev_page := Some 2 |}) ∧
  get_paginated_data df 30 10 = Err NotFound.
Proof. by vm_compute. Qed.

(** ** Indexing *)

Section fancy_index.
Context {A : Type}.
Implicit Types (l : list A) (idx : list nat).

Lemma fancy_index_app l idx1 idx2 :
  fancy_index l (idx1 ++ idx2) = fancy_index l idx1 ++ fancy_index l idx2.
Proof. apply omap_app. Qed.

Lemma fancy_index_reverse l idx :
  fancy_index l (reverse idx) = reverse (fancy_index l idx).
Proof.
  induction idx as [|i idx IH]; [done|].
  rewrite reverse_cons, fancy_index_app, IH. unfold fancy_index at 2 3.
  cbn [omap list_omap]. destruct (l !! i); [by rewrite reverse_cons|].
  apply app_nil_r.
Qed.

Lemma fancy_index_fmap {B} (f : A → B) l idx :
  fancy_index (f <$> l) idx = f <$> fancy_index l idx.
Proof.
  unfold fancy_index. induction idx as [|i idx IH]; [done|].
  cbn [omap list_omap]. rewrite list_lookup_fmap, IH.
  by destruct (l !! i).
Qed.

Lemma fancy_index_points l idx (xs : list A) :
  Forall2 (λ i x, l !! i = Some x) idx xs → fancy_index l idx = xs.
Proof.
  unfold fancy_index. induction 1 as [|i x idx xs Hi _ IH]; [done|].
  cbn [omap list_omap]. by rewrite Hi, IH.
Qed.

Lemma seq_points pre l :
  Forall2 (λ i x, (pre ++ l) !! i = Some x) (seq (length pre) (length l)) l.
Proof.
  revert pre. induction l as [|x l IH]; intros pre; [constructor|].
  cbn [length seq]. constructor.
  - by rewrite list_lookup_middle.
  - specialize (IH (pre ++ [x])).
    by rewrite <-app_assoc, length_app, Nat.add_1_r in IH.
Qed.

Lemma fancy_index_seq l : fancy_index l (seq 0 (length l)) = l.
Proof. apply fancy_index_points, (seq_points []). Qed.

Lemma fancy_index_perm l idx :
  idx ≡ₚ seq 0 (length l) → fancy_index l idx ≡ₚ l.
Proof.
  intros Hidx. rewrite <-(fancy_index_seq l) at 2.
  unfold fancy_index. by rewrite Hidx.
Qed.

Lemma Forall2_fancy_index {B} (P : A → B → Prop) l (k : list B) idx :
  Forall2 P l k → Forall2 P (fancy_index l idx) (fancy_index k idx).
Proof.
  intros Hlk. unfold fancy_index.
  induction idx as [|i idx IH]; [constructor|]. cbn [omap list_omap].
  destruct (l !! i) as [x|] eqn:Hx.
  - destruct (Forall2_lookup_l _ _ _ _ _ Hlk Hx) as (y & -> & Hxy).
    by constructor.
  - apply lookup_ge_None in Hx. rewrite (Forall2_length _ _ _ Hlk) in Hx.
    by rewrite (lookup_ge_None_2 k i Hx).
Qed.
End fancy_index.

Lemma StronglySorted_reverse {A} (R : relation A) (l : list A) :
  StronglySorted R l → StronglySorted (flip R) (reverse l).
Proof.
  induction 1 as [|x l _ IH Hx]; [constructor|].
  rewrite reverse_cons. apply StronglySorted_app. split_and!.
  - intros y z Hy ->%list_elem_of_singleton.
    rewrite elem_of_reverse in Hy. unfold flip.
    rewrite Forall_forall in Hx. by apply Hx.
  - done.
  - repeat constructor.
Qed.

Lemma StronglySorted_Forall2 {A B} (R : relation A) (S : relation B)
    (P : A → B → Prop) (l : list A) (k : list B) :
  (∀ x y x' y', P x x' → P y y' → R x y → S x' y') →
  Forall2 P l k → StronglySorted R l → StronglySorted S k.
Proof.
  intros HRS Hlk. induction Hlk as [|x x' l k Hx Hlk IH]; [constructor|].
  intros [Hxl Hl]%StronglySorted_cons. constructor; [by apply IH|].
  clear IH Hl. induction Hlk as [|y y' l k Hy _ IH]; [constructor|].
  apply Forall_cons in Hxl as [Hxy Hxl]. constructor; eauto.
Qed.

(** ** Sorting by a column, descending *)

Section nargsort.
Context `{K : Kernel} {R A : Type} (leb : A → A → bool) (key : R → option A).
Implicit Types (rows : list R).

Hypothesis leb_total : ∀ x y, leb x y ∨ leb y x.
Hypothesis leb_trans : ∀ x y z, leb x y → leb y z → leb x z.

Lemma bool_index_present rows :
  bool_index (key <$> rows) (negb <$> (isna <$> (key <$> rows))) =
    key <$> filter (λ r, ¬ isna (key r)) rows.
Proof.
  induction rows as [|r rows IH]; [done|].
  rewrite !fmap_cons, filter_cons. cbn [bool_index].
  destruct (key r) eqn:Hr; cbn [isna negb].
  - rewrite decide_True by (by intros []). by rewrite fmap_cons, Hr, IH.
  - by rewrite decide_False by (by intros []).
Qed.

Lemma bool_index_pos_present pre rows :
  Forall2 (λ i r, (pre ++ rows) !! i = Some r)
    (bool_index (seq (length pre) (length rows))
                (negb <$> (isna <$> (key <$> rows))))
    (filter (λ r, ¬ isna (key r)) rows).
Proof.
  revert pre. induction rows as [|r rows IH]; intros pre; [constructor|].
  rewrite !fmap_cons, filter_cons. cbn [length seq bool_index].
  specialize (IH (pre ++ [r])).
  rewrite <-app_assoc, length_app, Nat.add_1_r in IH. cbn [app] in IH.
  destruct (key r); cbn [isna negb].
  - rewrite decide_True by (by intros []).
    constructor; [by rewrite list_lookup_middle|done].
  - by rewrite decide_False by (by intros []).
Qed.

Lemma bool_index_pos_missing pre rows :
  Forall2 (λ i r, (pre ++ rows) !! i = Some r)
    (bool_index (seq (length pre) (length rows)) (isna <$> (key <$> rows)))
    (filter (λ r, isna (key r)) rows).
Proof.
  revert pre. induction rows as [|r rows IH]; intros pre; [constructor|].
  rewrite !fmap_cons, filter_cons. cbn [length seq bool_index].
  specialize (IH (pre ++ [r])).
  rewrite <-app_assoc, length_app, Nat.add_1_r in IH. cbn [app] in IH.
  destruct (key r); cbn [isna].
  - by rewrite decide_False by (by intros []).
  - rewrite decide_True by done.
    constructor; [by rewrite list_lookup_middle|done].
Qed.

Lemma present_keys (rs : list R) :
  Forall (λ r, ¬ isna (key r)) rs →
  Forall2 (λ r v, key r = Some v) rs (omap id (key <$> rs)).
Proof.
  induction 1 as [|r rs Hr _ IH]; [constructor|].
  rewrite fmap_cons. cbn [omap list_omap].
  destruct (key r) eqn:Hk; [|by destruct Hr]. by constructor.
Qed.

(** The sorted frame is the rows with a present key, in descending order
    of the key, followed by the rows with a missing key, in the order of
    the frame. *)
Lemma sort_descending rows :
  ∃ present,
    fancy_index rows (nargsort leb false (key <$> rows)) =
      present ++ filter (λ r, isna (key r)) rows ∧
    present ≡ₚ filter (λ r, ¬ isna (key r)) rows ∧
    StronglySorted (key_ge leb key) present.
Proof.
  unfold nargsort. rewrite length_fmap, bool_index_present.
  set (rs := filter (λ r, ¬ isna (key r)) rows).
  set (pos := bool_index _ (negb <$> _)).
  set (vals := omap id (reverse (key <$> rs))).
  assert (Forall2 (λ i r, rows !! i = Some r) pos rs) as Hpos
    by apply (bool_index_pos_present []).
  assert (Forall2 (λ r v, key r = Some v) (reverse rs) vals) as Hvals.
  { unfold vals. rewrite <-fmap_reverse. apply present_keys.
    apply Forall_reverse, Forall_forall. intros r Hr.
    by apply list_elem_of_filter in Hr as [? _]. }
  exists (reverse (fancy_index (reverse rs) (argsort leb vals))).
  split_and!.
  - rewrite fancy_index_app. f_equal.
    + rewrite fancy_index_reverse. f_equal.
      apply fancy_index_points, Forall2_fancy_index, Forall2_reverse, Hpos.
    + apply fancy_index_points, (bool_index_pos_missing []).
  - rewrite reverse_Permutation, fancy_index_perm.
    + apply reverse_Permutation.
    + rewrite argsort_perm. by rewrite (Forall2_length _ _ _ Hvals).
  - apply (StronglySorted_reverse (flip (key_ge leb key))).
    eapply (StronglySorted_Forall2 (λ x y, leb x y) (flip (key_ge leb key))
              (λ v r, key r = Some v)).
    + intros x y r1 r2 H1 H2 Hxy. by exists y, x.
    + apply Forall2_flip, Forall2_fancy_index, Hvals.
    + by apply argsort_sorted.
Qed.
End nargsort.

(** ** Top earners and top experienced *)

Lemma head_take {A} (l : list A) (n : Z) :
  0 ≤ n → head l n = take (Z.to_nat n) l.
Proof.
  intros Hn. unfold head. replace n with (0 + n) at 1 by lia.
  by rewrite py_slice_window, drop_0 by lia.
Qed.

Lemma Qcleb_total (x y : Qc) : Qcleb x y ∨ Qcleb y x.
Proof.
  unfold Qcleb. rewrite !bool_decide_spec. apply Qc_le_total.
Qed.

Lemma Qcleb_trans (x y z : Qc) : Qcleb x y → Qcleb y z → Qcleb x z.
Proof.
  unfold Qcleb. rewrite !bool_decide_spec. apply Qcle_trans.
Qed.

Section top.
Context `{K : Kernel} (by_ : Row → option Qc).
Implicit Types (df : DataFrame) (n : Z).

Let row_order (r1 r2 : Row) : Prop := desc_missing_last (by_ r1) (by_ r2).

Lemma missing_sorted (rs : list Row) :
  Forall (λ r, isna (by_ r)) rs → StronglySorted row_order rs.
Proof.
  induction 1 as [|r rs Hr Hrs IH]; constructor; [done|].
  eapply Forall_impl; [exact Hrs|]. intros r' Hr'. unfold row_order.
  cbn beta in Hr'.
  destruct (by_ r'); [by destruct Hr'|]. by destruct (by_ r).
Qed.

Lemma sort_values_descending df :
  ∃ present,
    sort_values by_ false df = present ++ filter (λ r, isna (by_ r)) df ∧
    Forall (λ r, ¬ isna (by_ r)) present ∧
    sort_values by_ false df ≡ₚ df ∧
    StronglySorted row_order (sort_values by_ false df).
Proof.
  destruct (sort_descending Qcleb by_ Qcleb_total Qcleb_trans df)
    as (present & Heq & Hperm & Hsorted).
  assert (Forall (λ r, ¬ isna (by_ r)) present) as Hpresent.
  { rewrite Hperm. apply Forall_forall. intros r Hr.
    by apply list_elem_of_filter in Hr as [? _]. }
  exists present. unfold sort_values. rewrite Heq. split_and!; [done..| |].
  - rewrite Hperm, Permutation_app_comm. apply filter_app_complement.
  - apply StronglySorted_app. split_and!.
    + intros r1 r2 H1 [H2 _]%list_elem_of_filter. unfold row_order.
      destruct (by_ r2); [by destruct H2|]. by destruct (by_ r1).
    + rewrite <-(list_fmap_id present).
      apply (StronglySorted_fmap id (key_ge Qcleb by_)); [|done].
      intros r1 r2 (x & y & H1 & H2 & Hle). unfold row_order. simpl.
      rewrite H1, H2. by apply bool_decide_spec in Hle.
    + apply missing_sorted, Forall_forall.
      by intros r [? _]%list_elem_of_filter.
Qed.

Lemma top_by df n :
  0 ≤ n →
  is_top_by by_ df n (top_columns by_ <$> head (sort_values by_ false df) n).
Proof.
  intros Hn. rewrite head_take by done.
  destruct (sort_values_descending df)
    as (present & Heq & Hpresent & Hperm & Hsorted).
  set (sorted := sort_values by_ false df) in *.
  exists (take (Z.to_nat n) sorted). split_and!.
  - done.
  - rewrite <-Hperm. apply submseteq_take.
  - rewrite length_fmap, length_take, (Permutation_length Hperm). lia.
  - rewrite <-list_fmap_compose.
    apply (StronglySorted_fmap _ row_order); [done|].
    rewrite <-(take_drop (Z.to_nat n) sorted) in Hsorted.
    by apply StronglySorted_app_1_l in Hsorted.
  - exists (drop (Z.to_nat n) sorted). split.
    + by rewrite take_drop.
    + rewrite <-(take_drop (Z.to_nat n) sorted) in Hsorted.
      apply StronglySorted_app in Hsorted as (Hcross & _ & _). eauto.
  - exists (take (Z.to_nat n) present), (Z.to_nat n - length present)%nat.
    split; [by rewrite Heq, take_app|by apply Forall_take].
Qed.
End top.

(** X20. For [n >= 1], [get_top_earners(n)] and [get_top_experienced(n)]
    return [min(n, total)] records, the projection of a sub-multiset of the
    dataset, in descending order of salary (respectively years of
    experience) with the records lacking the value after all the others;
    no record left out ranks before a returned one; the returned records
    lacking the value are in dataset order.  This holds whatever order the
    sort gives to records with equal present values. *)
Theorem X20_rankings_sorted_subset `{K : Kernel} (df : DataFrame) (n : Z) :
  1 ≤ n →
  is_top_by salary df n (get_top_earners df n) ∧
  is_top_by years_of_experience df n (get_top_experienced df n).
Proof.
  intros Hn. split; apply top_by; lia.
Qed.

Lemma X20_rankings_sorted_subset_witness :
  1 ≤ 2 ∧
  is_top_by salary three_rows 2 (@get_top_earners stable_kernel three_rows 2) ∧
  te_first_name <$> @get_top_earners stable_kernel three_rows 2 = ["Bob"; "Ann"].
Proof.
  split; [lia|]. split; [|reflexivity].
  apply (@X20_rankings_sorted_subset stable_kernel three_rows 2). lia.
Defined.

(** ** Frequency tables *)

Section dict.
Context {K V : Type} `{EqDecision K}.
Implicit Types (d : list (K * V)).

Lemma dict_get_elem d k v :
  NoDup d.*1 → dict_get k d = Some v ↔ (k, v) ∈ d.
Proof.
  induction d as [|[k' v'] d IH]; simpl; intros Hnd.
  { split; [done|]. intros Hin. by apply elem_of_nil in Hin. }
  apply NoDup_cons in Hnd as [Hk' Hd]. rewrite elem_of_cons.
  case_decide as Hk.
  - subst k'. split.
    + intros [= ->]. by left.
    + intros [[= ->]|Hin]; [done|]. destruct Hk'.
      apply list_elem_of_fmap. by exists (k, v).
  - rewrite IH by done. split; [by right|].
    intros [[= ? ?]|?]; [by subst|done].
Qed.

Lemma dict_get_None d k : dict_get k d = None ↔ k ∉ d.*1.
Proof.
  induction d as [|[k' v'] d IH]; simpl.
  { split; [intros _; apply not_elem_of_nil|done]. }
  rewrite not_elem_of_cons, <-IH. case_decide as Hk.
  - split; [done|]. by intros [? _].
  - split; [by split|]. by intros [_ ?].
Qed.

Lemma dict_get_perm d d' k :
  NoDup d.*1 → d ≡ₚ d' → dict_get k d = dict_get k d'.
Proof.
  intros Hd Hperm.
  assert (NoDup d'.*1) as Hd' by (by rewrite <-Hperm).
  destruct (dict_get k d') as [v|] eqn:Hv.
  - apply dict_get_elem; [done|]. rewrite Hperm. by apply dict_get_elem.
  - apply dict_get_None. rewrite Hperm. by apply dict_get_None.
Qed.
End dict.

Section value_count.
Context {A : Type} `{EqDecision A}.
Implicit Types (k x : A) (l : list A) (t : list (A * nat)).

Lemma occurrences_snoc k l x :
  occurrences k (l ++ [x]) =
    (occurrences k l + (if decide (x = k) then 1 else 0))%nat.
Proof.
  unfold occurrences. rewrite filter_app, length_app. f_equal.
  rewrite filter_cons. by case_decide.
Qed.

Lemma value_count_snoc l x : value_count (l ++ [x]) = bump x (value_count l).
Proof. unfold value_count. by rewrite foldl_app. Qed.

Lemma dict_get_bump k x t :
  dict_get k (bump x t) =
    if decide (k = x) then Some (S (default 0%nat (dict_get k t)))
    else dict_get k t.
Proof.
  induction t as [|[k' c] t IH]; simpl.
  { repeat case_decide; naive_solver. }
  destruct (decide (x = k')) as [->|Hx]; simpl.
  - repeat case_decide; naive_solver.
  - rewrite IH. repeat case_decide; naive_solver.
Qed.

Lemma keys_bump x t :
  (bump x t).*1 = if decide (x ∈ t.*1) then t.*1 else t.*1 ++ [x].
Proof.
  induction t as [|[k' c] t IH].
  { cbn. case_decide as Hin; [by apply elem_of_nil in Hin|done]. }
  cbn [bump]. rewrite (fmap_cons fst (k', c)). cbn [fst].
  destruct (decide (x = k')) as [->|Hx].
  - rewrite decide_True by left. done.
  - rewrite fmap_cons, IH. cbn [fst].
    destruct (decide (x ∈ t.*1)) as [Hin|Hout].
    + rewrite decide_True by (by right). done.
    + rewrite decide_False by (by intros [?|?]%elem_of_cons). done.
Qed.

Lemma sum_bump x t : sum_list (bump x t).*2 = S (sum_list t.*2).
Proof.
  induction t as [|[k' c] t IH]; [done|].
  cbn [bump]. case_decide; [done|].
  rewrite !fmap_cons. cbn [sum_list_with snd id]. rewrite IH. lia.
Qed.

Lemma dict_get_value_count k l :
  dict_get k (value_count l) =
    if decide (occurrences k l = 0)%nat then None
    else Some (occurrences k l).
Proof.
  induction l as [|x l IH] using rev_ind; [done|].
  rewrite value_count_snoc, dict_get_bump, occurrences_snoc, IH.
  destruct (decide (k = x)) as [->|Hk].
  - rewrite (decide_True (P := x = x)) by done.
    destruct (decide (occurrences x l = 0)%nat) as [H0|H0];
      destruct (decide (occurrences x l + 1 = 0)%nat); simpl;
      try lia; f_equal; lia.
  - rewrite (decide_False (P := x = k)) by done.
    by rewrite Nat.add_0_r.
Qed.

Lemma NoDup_value_count l : NoDup (value_count l).*1.
Proof.
  induction l as [|x l IH] using rev_ind; [constructor|].
  rewrite value_count_snoc, keys_bump. case_decide; [done|].
  apply NoDup_app. split_and!; [done| |apply NoDup_singleton].
  by intros y Hy ->%list_elem_of_singleton.
Qed.

Lemma sum_value_count l : sum_list (value_count l).*2 = length l.
Proof.
  induction l as [|x l IH] using rev_ind; [done|].
  rewrite value_count_snoc, sum_bump, IH, length_app. simpl. lia.
Qed.
End value_count.

Section value_counts.
Context `{K : Kernel} {A : Type} `{EqDecision A}.
Implicit Types (col : list (option A)) (dropna : bool).

Lemma bool_index_dropna col :
  bool_index col (negb ∘ isna <$> col) = filter (λ x, ¬ isna x) col.
Proof.
  induction col as [|x col IH]; [done|].
  rewrite fmap_cons, filter_cons. cbn [bool_index compose].
  destruct x; cbn [isna negb].
  - rewrite decide_True by (by intros []). by rewrite IH.
  - by rewrite decide_False by (by intros []).
Qed.

Lemma filter_all {B} (P : B → Prop) `{∀ x, Decision (P x)} (l : list B) :
  Forall P l → filter P l = l.
Proof.
  induction 1 as [|x l Hx _ IH]; [done|].
  by rewrite filter_cons, decide_True, IH.
Qed.

Lemma filter_none {B} (P : B → Prop) `{∀ x, Decision (P x)} (l : list B) :
  Forall (λ x, ¬ P x) l → filter P l = [].
Proof.
  induction 1 as [|x l Hx _ IH]; [done|].
  by rewrite filter_cons, decide_False, IH.
Qed.

Lemma value_counts_sorted dropna col :
  value_counts dropna col ≡ₚ value_count (counted dropna col) ∧
  StronglySorted count_ge (value_counts dropna col).
Proof.
  unfold value_counts. rewrite bool_index_dropna.
  fold (counted dropna col). set (result := value_count _).
  assert (∀ x y, Nat.leb x y ∨ Nat.leb y x) as Htot.
  { intros x y. rewrite !Is_true_true, !Nat.leb_le. lia. }
  assert (∀ x y z, Nat.leb x y → Nat.leb y z → Nat.leb x z) as Htrans.
  { intros x y z. rewrite !Is_true_true, !Nat.leb_le. lia. }
  destruct (sort_descending Nat.leb (Some ∘ snd) Htot Htrans result)
    as (present & Heq & Hperm & Hsorted).
  rewrite filter_none in Heq by (apply Forall_forall; by intros ? _ []).
  rewrite filter_all in Hperm by (apply Forall_forall; by intros ? _ []).
  rewrite app_nil_r in Heq. rewrite Heq. split; [done|].
  rewrite <-(list_fmap_id present).
  apply (StronglySorted_fmap id (key_ge Nat.leb (Some ∘ snd))); [|done].
  intros e1 e2 (x & y & [= <-] & [= <-] & Hle). unfold count_ge. simpl.
  by apply Is_true_true, Nat.leb_le in Hle.
Qed.

Lemma dict_get_value_counts dropna col k :
  dict_get k (value_counts dropna col) =
    if decide (occurrences k (counted dropna col) = 0)%nat then None
    else Some (occurrences k (counted dropna col)).
Proof.
  destruct (value_counts_sorted dropna col) as [Hperm _].
  rewrite <-dict_get_value_count. symmetry.
  apply dict_get_perm; [apply NoDup_value_count|done].
Qed.

Lemma NoDup_value_counts dropna col : NoDup (value_counts dropna col).*1.
Proof.
  destruct (value_counts_sorted dropna col) as [Hperm _].
  rewrite Hperm. apply NoDup_value_count.
Qed.

Lemma sum_value_counts dropna col :
  sum_list (value_counts dropna col).*2 = length (counted dropna col).
Proof.
  destruct (value_counts_sorted dropna col) as [Hperm _].
  rewrite Hperm. apply sum_value_count.
Qed.
End value_counts.

(** C7. [get_gender_distribution()] maps every gender value of the
    dataset, the missing marker included, to the number of records that
    carry it, has no other key, and its counts add up to the number of
    records. *)
Theorem C7_gender_distribution_total `{K : Kernel} (df : DataFrame) :
  let d := get_gender_distribution df in
  (∀ g : option string,
     dict_get g d =
       if decide (occurrences g (gender <$> df) = 0)%nat then None
       else Some (occurrences g (gender <$> df))) ∧
  (occurrences None (gender <$> df) ≠ 0%nat →
     dict_get None d = Some (occurrences None (gender <$> df))) ∧
  NoDup d.*1 ∧
  sum_list d.*2 = length df.
Proof.
  unfold get_gender_distribution. split_and!.
  - intros g. apply (dict_get_value_counts false).
  - intros Hmissing. rewrite (dict_get_value_counts false). simpl.
    by rewrite decide_False.
  - apply NoDup_value_counts.
  - rewrite sum_value_counts. simpl. apply length_fmap.
Qed.

(** ** Industry distribution *)

Section industry_distribution.
Context `{K : Kernel}.
Implicit Types (df : DataFrame) (col : list (option string)).

Lemma occurrences_dropna col (s : string) :
  occurrences (Some s) (counted true col) = occurrences (Some s) col.
Proof.
  unfold occurrences, counted. rewrite list_filter_filter. f_equal.
  apply list_filter_iff. intros x. split; [by intros [? _]|].
  intros ->. split; [done|]. by intros [].
Qed.

Lemma occurrences_missing_dropna col :
  occurrences None (counted true col) = 0%nat.
Proof.
  unfold occurrences, counted. rewrite list_filter_filter.
  rewrite filter_none; [done|]. apply Forall_forall.
  intros x _ [-> Hx]. by apply Hx.
Qed.

Lemma occurrences_positive col (k : option string) :
  k ∈ col → occurrences k col ≠ 0%nat.
Proof.
  intros Hk Hocc. apply length_zero_iff_nil in Hocc.
  assert (k ∈ filter (λ x, x = k) col) as Hin
    by (by apply list_elem_of_filter).
  rewrite Hocc in Hin. by apply elem_of_nil in Hin.
Qed.

Lemma value_counts_industry_entry col k c :
  (k, c) ∈ value_counts true col →
  k ≠ None ∧ c = occurrences k col ∧ (0 < c)%nat.
Proof.
  intros Hin. apply dict_get_elem in Hin; [|apply NoDup_value_counts].
  rewrite dict_get_value_counts in Hin. destruct k as [s|].
  - rewrite occurrences_dropna in Hin. case_decide; [done|].
    injection Hin as <-. split_and!; [done..|lia].
  - by rewrite occurrences_missing_dropna in Hin.
Qed.

Lemma value_counts_industry_key col (s : string) :
  Some s ∈ col →
  (Some s, occurrences (Some s) col) ∈ value_counts true col.
Proof.
  intros Hs. apply dict_get_elem; [apply NoDup_value_counts|].
  rewrite dict_get_value_counts, occurrences_dropna.
  rewrite decide_False; [done|]. by apply occurrences_positive.
Qed.

Lemma sum_list_take (l : list nat) (n : nat) :
  (sum_list (take n l) ≤ sum_list l)%nat.
Proof.
  rewrite <-(take_drop n l) at 2. rewrite sum_list_with_app. lia.
Qed.

Lemma length_filter_fmap {A B} (f : A → B) (P : B → Prop)
    `{∀ y, Decision (P y)} (l : list A) :
  length (filter P (f <$> l)) = length (filter (λ x, P (f x)) l).
Proof.
  induction l as [|x l IH]; [done|].
  rewrite fmap_cons, !filter_cons. case_decide; simpl; by rewrite IH.
Qed.
End industry_distribution.

(** X21. For [top_n >= 1], [get_industry_distribution(top_n)] has at most
    [top_n] entries with distinct keys; every entry maps an industry to
    the number of records of that industry; the entries are in descending
    order of count; an industry left out has no more records than any
    industry kept; and either every industry of the dataset is kept or
    exactly [top_n] are.  This holds whatever order the sort gives to
    entries with equal counts. *)
Theorem X21_industry_distribution_counts `{K : Kernel} (df : DataFrame) (top_n : Z) :
  1 ≤ top_n →
  let d := get_industry_distribution df top_n in
  let col := industry <$> df in
  Z.of_nat (length d) ≤ top_n ∧
  NoDup d.*1 ∧
  (∀ k c, (k, c) ∈ d → c = occurrences k col ∧ (0 < c)%nat) ∧
  StronglySorted count_ge d ∧
  (∀ (s : string) e, Some s ∈ col → Some s ∉ d.*1 → e ∈ d →
     (occurrences (Some s) col ≤ e.2)%nat) ∧
  ((∀ s : string, Some s ∈ col → Some s ∈ d.*1) ∨
   Z.of_nat (length d) = top_n).
Proof.
  intros Hn d col. unfold d, get_industry_distribution.
  rewrite head_take by lia. fold col.
  destruct (value_counts_sorted true col) as [_ Hsorted].
  set (vcs := value_counts true col) in *.
  set (n := Z.to_nat top_n).
  pose proof (take_drop n vcs) as Hsplit.
  split_and!.
  - rewrite length_take. lia.
  - rewrite fmap_take.
    eapply sublist_NoDup; [apply NoDup_value_counts|apply sublist_take].
  - intros k c Hin%subseteq_take.
    by apply value_counts_industry_entry in Hin as (_ & ? & ?).
  - rewrite <-Hsplit in Hsorted. by apply StronglySorted_app_1_l in Hsorted.
  - intros s e Hs Hout He.
    pose proof (value_counts_industry_key col s Hs) as Hin. fold vcs in Hin.
    rewrite <-Hsplit in Hin, Hsorted.
    apply StronglySorted_app in Hsorted as (Hcross & _ & _).
    apply elem_of_app in Hin as [Hin|Hin].
    + destruct Hout. apply list_elem_of_fmap. by eexists (_, _).
    + apply (Hcross _ _ He Hin).
  - destruct (decide (length vcs ≤ n)%nat) as [Hshort|Hlong].
    + left. intros s Hs. rewrite take_ge by done.
      apply list_elem_of_fmap. eexists (_, _). split; [done|].
      by apply value_counts_industry_key.
    + right. rewrite length_take. lia.
Qed.

Lemma X21_industry_distribution_counts_witness :
  1 ≤ 1 ∧
  @get_industry_distribution stable_kernel three_rows 1 = [(Some "Tech", 1%nat)] ∧
  StronglySorted count_ge (@get_industry_distribution stable_kernel three_rows 1).
Proof.
  split; [lia|]. split; [reflexivity|].
  apply (@X21_industry_distribution_counts stable_kernel three_rows 1). lia.
Defined.

(** C10. For [top_n >= 1], [get_industry_distribution(top_n)] has no entry
    for the missing industry, and its counts add up to at most the number
    of records with an industry, itself at most the number of records; on
    a dataset whose only record lacks the industry the sum is strictly
    less than the number of records. *)
Theorem C10_industry_distribution_drops_missing `{K : Kernel}
    (df : DataFrame) (top_n : Z) :
  1 ≤ top_n →
  let d := get_industry_distribution df top_n in
  (None ∉ d.*1) ∧
  (sum_list d.*2 ≤ length (filter (λ r, ¬ isna (industry r)) df))%nat ∧
  (length (filter (λ r, ¬ isna (industry r)) df) ≤ length df)%nat ∧
  ∃ df0 : DataFrame,
    (sum_list (get_industry_distribution df0 top_n).*2 < length df0)%nat.
Proof.
  intros Hn d. unfold d, get_industry_distribution.
  rewrite head_take by lia. split_and!.
  - intros ([k c] & Hk & Hin%subseteq_take)%list_elem_of_fmap.
    simpl in Hk. subst k.
    by apply value_counts_industry_entry in Hin as (? & _).
  - rewrite fmap_take.
    etrans; [apply sum_list_take|].
    rewrite sum_value_counts. unfold counted.
    by rewrite length_filter_fmap.
  - apply length_filter.
  - exists [sample_row "Cid" None None None].
    rewrite head_take by lia.
    pose proof (sum_list_take
      (value_counts true (industry <$> [sample_row "Cid" None None None])).*2
      (Z.to_nat top_n)) as Hle.
    rewrite sum_value_counts in Hle. rewrite fmap_take. simpl in *. lia.
Qed.

Lemma C10_industry_distribution_drops_missing_witness :
  1 ≤ 5 ∧
  @get_industry_distribution stable_kernel three_rows 5
    = [(Some "Tech", 1%nat); (Some "Retail", 1%nat)] ∧
  None ∉ (@get_industry_distribution stable_kernel three_rows 5).*1.
Proof.
  split; [lia|]. split; [reflexivity|].
  apply (@C10_industry_distribution_drops_missing stable_kernel three_rows 5).
  lia.
Defined.

(** ** Statistics over missing or insufficient data *)

Section degenerate.
Context `{K : Kernel}.
Implicit Types (col : list (option Qc)) (df : DataFrame).

Lemma omap_all_missing col : Forall (λ x, x = None) col → omap id col = [].
Proof. induction 1 as [|x col -> _ IH]; [done|]. exact IH. Qed.

(** Of a column without values [describe] knows the count only. *)
Lemma describe_all_missing col :
  Forall (λ x, x = None) col →
  dropna_to_dict (describe col) = [("count", Qc_of_Z 0)].
Proof.
  intros Hcol. unfold describe. by rewrite (omap_all_missing col Hcol).
Qed.

(** With at most one value there is no standard deviation. *)
Lemma describe_no_std col :
  (length (omap id col) ≤ 1)%nat →
  dict_get "std" (dropna_to_dict (describe col)) = None.
Proof.
  intros Hlen. unfold describe.
  destruct (omap id col) as [|x [|y vals]]; [done| |simpl in Hlen; lia].
  reflexivity.
Qed.

Lemma validate_without_std (d : list (string * Qc)) :
  dict_get "std" d = None →
  validate_StatsResponse d = Err ResponseValidationError.
Proof.
  intros Hstd. unfold validate_StatsResponse. rewrite Hstd.
  by destruct (dict_get "count" d), (dict_get "mean" d).
Qed.

Lemma omap_id_fmap {A B} (f : A → option B) (l : list A) :
  omap id (f <$> l) = omap f l.
Proof.
  induction l as [|x l IH]; [done|]. rewrite fmap_cons.
  cbn [omap list_omap id]. by rewrite IH.
Qed.

Lemma salary_stats_rejected df ind :
  (length (omap salary (industry_subset df ind)) ≤ 1)%nat →
  salary_stats df ind = Err ResponseValidationError.
Proof.
  intros Hlen. apply validate_without_std, describe_no_std.
  by rewrite omap_id_fmap.
Qed.

Lemma experience_stats_rejected df ind :
  (length (omap years_of_experience (industry_subset df ind)) ≤ 1)%nat →
  experience_stats df ind = Err ResponseValidationError.
Proof.
  intros Hlen. apply validate_without_std, describe_no_std.
  by rewrite omap_id_fmap.
Qed.
End degenerate.

Section correlation.
Context `{K : Kernel}.

Lemma Qc_of_Z_1 : Qc_of_Z 1 = 1%Qc.
Proof. by apply Qc_is_canon. Qed.

Lemma ssqdm_singleton (x : Qc) : ssqdm [x] = 0%Qc.
Proof.
  unfold ssqdm, Qmean, Qsum. cbn [fmap list_fmap foldr length Z.of_nat].
  change (Z.of_nat 1) with 1. rewrite Qc_of_Z_1.
  field. discriminate.
Qed.

(** Without two paired observations there is no correlation. *)
Lemma nancorr_few (xs ys : list (option Qc)) :
  (length (omap (λ xy, x ← xy.1; y ← xy.2; Some (x, y)) (zip xs ys)) < 2)%nat →
  nancorr xs ys = None.
Proof.
  unfold nancorr.
  destruct (omap _ (zip xs ys)) as [|[x y] [|p ps]]; cbn [length]; intros Hlen.
  - done.
  - rewrite decide_False by lia. cbn [fmap list_fmap fst snd].
    rewrite !ssqdm_singleton, Qcmult_0_l, fsqrt_0. by rewrite decide_True.
  - lia.
Qed.
End correlation.

(** C3. A dataset whose only record lacks salary and experience, and a
    filter that selects no record, leave [describe] with the count alone:
    the service returns a dict without [mean], [std], [min] and [max], the
    routes [/salary/stats] and [/experience/stats] declare these fields
    required, and the outcome of the request is a server error.  The
    correlations over the same dataset are both [None], which the
    [CorrelationResponse] model accepts. *)
Theorem C3_missing_statistics_rejected `{K : Kernel} :
  get_salary_stats [blank_row] None = [("count", Qc_of_Z 0)] ∧
  salary_stats [blank_row] None = Err ResponseValidationError ∧
  experience_stats [blank_row] None = Err ResponseValidationError ∧
  get_salary_stats three_rows (Some "Mining") = [("count", Qc_of_Z 0)] ∧
  salary_stats three_rows (Some "Mining") = Err ResponseValidationError ∧
  correlations [blank_row] =
    Ok {| salary_vs_experience := None; experience_vs_age := None |}.
Proof.
  split_and!.
  - apply describe_all_missing. by repeat constructor.
  - apply salary_stats_rejected. simpl. lia.
  - apply experience_stats_rejected. simpl. lia.
  - apply describe_all_missing. by vm_compute.
  - apply salary_stats_rejected. vm_compute. lia.
  - unfold correlations, get_correlations.
    by rewrite !nancorr_few by (simpl; lia).
Qed.

(** ** The industry filter *)

(** C9. With the empty text for [industry] the salary and experience
    statistics are those of the whole dataset, as with [industry = None],
    and not those of the records whose industry is empty; with any other
    text they are those of the records whose industry is that very text,
    so that a record whose industry differs from it, be it by the case of
    one letter, is left out. *)
Theorem C9_empty_industry_is_no_filter `{K : Kernel} (df : DataFrame) :
  get_salary_stats df (Some EmptyString) = get_salary_stats df None ∧
  get_experience_stats df (Some EmptyString) = get_experience_stats df None ∧
  industry_subset df (Some EmptyString) = df ∧
  industry_subset df None = df ∧
  (∀ s : string, s ≠ EmptyString →
     industry_subset df (Some s) = filter (λ r, industry r = Some s) df ∧
     get_salary_stats df (Some s) =
       dropna_to_dict (describe (salary <$>
         filter (λ r, industry r = Some s) df)) ∧
     get_experience_stats df (Some s) =
       dropna_to_dict (describe (years_of_experience <$>
         filter (λ r, industry r = Some s) df)) ∧
     ∀ r, r ∈ industry_subset df (Some s) ↔ r ∈ df ∧ industry r = Some s) ∧
  (∀ r, industry r = Some "tech" → r ∉ industry_subset df (Some "Tech")).
Proof.
  split_and!; try done.
  - intros s Hs.
    assert (industry_subset df (Some s) = filter (λ r, industry r = Some s) df)
      as Hsub.
    { unfold industry_subset, truthy. by rewrite bool_decide_eq_false_2. }
    unfold get_salary_stats, get_experience_stats. rewrite Hsub.
    split_and!; try done.
    intros r. rewrite list_elem_of_filter. by split; intros [? ?].
  - intros r Hr [Hin _]%list_elem_of_filter. by rewrite Hr in Hin.
Qed.

Lemma C9_empty_industry_is_no_filter_witness :
  "Tech"%string ≠ EmptyString ∧
  first_name <$> industry_subset three_rows (Some "Tech") = ["Ann"] ∧
  first_name <$> industry_subset three_rows (Some EmptyString) = ["Ann"; "Bob"; "Cid"].
Proof.
  destruct (@C9_empty_industry_is_no_filter stable_kernel three_rows)
    as (_ & _ & Hempty & _ & Hfilter & _).
  assert ("Tech"%string ≠ EmptyString) as Hne by discriminate.
  destruct (Hfilter "Tech"%string Hne) as (Hsub & _).
  split; [exact Hne|]. rewrite Hsub, Hempty. split; reflexivity.
Defined.

(** A record whose industry is the empty text is not singled out by the
    empty filter. *)
Example empty_industry_keeps_everyone :
  let df := [ sample_row "Ann" (Some 10) None (Some EmptyString);
              sample_row "Bob" (Some 20) None (Some "Tech") ] in
  first_name <$> industry_subset df (Some EmptyString) = ["Ann"; "Bob"] ∧
  first_name <$> filter (λ r, industry r = Some EmptyString) df = ["Ann"].
Proof. by vm_compute. Qed.

(** ** The memoized dataset *)

Section memo.
Context `{K : Kernel}.
Implicit Types (w : World) (q : query) (qs : list query).

Lemma load_dataframe_hit w id :
  cache w = Some id → load_dataframe w = (Ok id, w).
Proof. intros Hc. unfold load_dataframe, start_call. by rewrite Hc. Qed.

Lemma load_dataframe_failed w e :
  cache w = None → body w = Err e →
  load_dataframe w =
    (Err e, {| source := source w; today := today w; heap := heap w;
               cache := None; reads := S (reads w) |}).
Proof.
  intros Hc Hb. unfold load_dataframe, start_call. by rewrite Hc, Hb.
Qed.

Lemma load_dataframe_first raw now df :
  preprocess now raw = Ok df →
  load_dataframe (initial (Some raw) now) = (Ok 0%nat, loaded raw now df).
Proof.
  intros Hdf. unfold load_dataframe, start_call, body. simpl.
  by rewrite Hdf.
Qed.

Lemma run_query_hit q w id df :
  cache w = Some id → heap w !! id = Some df →
  run_query q w = (Ok (compute q df), w).
Proof.
  intros Hc Hh. unfold run_query.
  by rewrite (load_dataframe_hit w id Hc), Hh.
Qed.

Lemma run_all_hit qs w id df :
  cache w = Some id → heap w !! id = Some df → run_all qs w = w.
Proof.
  intros Hc Hh. unfold run_all. induction qs as [|q qs IH]; [done|].
  cbn [foldl]. by rewrite (run_query_hit q w id df Hc Hh).
Qed.

Lemma run_all_initial raw now df qs :
  preprocess now raw = Ok df →
  run_all qs (initial (Some raw) now) =
    match qs with
    | [] => initial (Some raw) now
    | _ :: _ => loaded raw now df
    end.
Proof.
  intros Hdf. destruct qs as [|q qs]; [done|]. unfold run_all. cbn [foldl].
  assert ((run_query q (initial (Some raw) now)).2 = loaded raw now df)
    as ->.
  { unfold run_query. by rewrite (load_dataframe_first raw now df Hdf). }
  by apply (run_all_hit qs _ 0%nat df).
Qed.
End memo.

(** ** Calls that overlap *)

Section overlap.
Context `{K : Kernel}.
Implicit Types (w : World) (p : Process) (e : event) (es : list event).
Implicit Types (out : result DataFrame) (t id : nat).

(** What holds of the process at every moment of a run that starts from
    the source [src] on the date [now]. *)
Record consistent (src : option (list RawRow)) (now : date) p : Prop := {
  same_source : source (world p) = src;
  same_date : today (world p) = now;
  one_call_each : NoDup (running p).*1;
  bodies : ∀ t out, (t, out) ∈ running p → out = body (initial src now);
  contents : ∀ df, df ∈ heap (world p) → body (initial src now) = Ok df;
  cached_object : ∀ id, cache (world p) = Some id →
    (id < length (heap (world p)))%nat;
  results : ∀ t r, (t, r) ∈ returned p →
    match r with
    | Ok id => (id < length (heap (world p)))%nat
    | Err err => body (initial src now) = Err err
    end;
  reads_bound :
    (reads (world p) ≤ length (running p) + length (returned p))%nat;
  reads_uncached : cache (world p) = None →
    reads (world p) = (length (running p) + length (returned p))%nat
}.

Lemma body_initial w :
  body w = body (initial (source w) (today w)).
Proof. reflexivity. Qed.

Lemma dict_get_Some_elem {V} t (v : V) (d : list (nat * V)) :
  dict_get t d = Some v → (t, v) ∈ d.
Proof.
  induction d as [|[t' v'] d IH]; [done|]. simpl.
  case_decide as Ht; [intros [= ->]; subst; by left|].
  intros Hd. right. by apply IH.
Qed.

Lemma length_filter_running {V} t (v : V) (d : list (nat * V)) :
  NoDup d.*1 → (t, v) ∈ d →
  S (length (filter (λ c, c.1 ≠ t) d)) = length d.
Proof.
  induction d as [|[t' v'] d IH]; intros Hnd Hin.
  { by apply elem_of_nil in Hin. }
  rewrite fmap_cons in Hnd. apply NoDup_cons in Hnd as [Hout Hnd].
  rewrite filter_cons. cbn [fst length] in *.
  apply elem_of_cons in Hin as [[= <- <-]|Hin].
  - rewrite decide_False by (intros Hne; by apply Hne). f_equal.
    rewrite (filter_all (λ c : nat * V, c.1 ≠ t) d); [done|].
    apply Forall_forall. intros [t2 v2] Hin2 Ht2. simpl in Ht2. subst t2.
    apply Hout. apply list_elem_of_fmap. by exists (t, v2).
  - assert (t' ≠ t) as Hne.
    { intros ->. apply Hout. apply list_elem_of_fmap. by exists (t, v). }
    rewrite decide_True by done. cbn [length]. f_equal. by apply IH.
Qed.

Lemma NoDup_filter_keys {V} (P : nat * V → Prop) `{∀ c, Decision (P c)}
    (d : list (nat * V)) :
  NoDup d.*1 → NoDup (filter P d).*1.
Proof.
  intros Hnd. apply (sublist_NoDup _ d.*1); [done|].
  apply fmap_sublist, sublist_filter.
Qed.

Lemma consistent_boot src now : consistent src now (boot src now).
Proof.
  split; simpl; try done.
  - constructor.
  - intros t out Hin. by apply elem_of_nil in Hin.
  - intros df Hin. by apply elem_of_nil in Hin.
  - intros t r Hin. by apply elem_of_nil in Hin.
Qed.

Lemma consistent_step src now p e :
  consistent src now p → consistent src now (step p e).
Proof.
  intros [Hsrc Hnow Hnd Hbody Hheap Hcache Hres Hle Heq].
  destruct e as [t|t]; simpl.
  - case_decide as Hrun; [by split|].
    unfold start_call. destruct (cache (world p)) as [id|] eqn:Hc.
    + split; simpl.
      * done.
      * done.
      * done.
      * done.
      * done.
      * first [done|by rewrite Hc|by rewrite ?Hc].
      * intros t' r Hin. apply elem_of_app in Hin as [Hin|Hin].
        { exact (Hres t' r Hin). }
        apply list_elem_of_singleton in Hin as [= -> ->]. by apply Hcache.
      * rewrite length_app. simpl. lia.
      * first [done|by rewrite Hc|by rewrite ?Hc].
    + split; simpl.
      * done.
      * done.
      * rewrite fmap_app. apply NoDup_app. split_and!; [done| |].
        { intros x Hx Hx'. apply list_elem_of_singleton in Hx' as ->.
          by apply Hrun. }
        { apply NoDup_singleton. }
      * intros t' out Hin. apply elem_of_app in Hin as [Hin|Hin].
        { exact (Hbody t' out Hin). }
        apply list_elem_of_singleton in Hin as [= -> ->].
        rewrite body_initial. by rewrite Hsrc, Hnow.
      * done.
      * first [done|by rewrite Hc|by rewrite ?Hc].
      * done.
      * rewrite length_app. simpl. rewrite Heq by done. lia.
      * intros _. rewrite length_app. simpl. rewrite Heq by done. lia.
  - destruct (dict_get t (running p)) as [out|] eqn:Hget; [|by split].
    apply dict_get_Some_elem in Hget.
    pose proof (length_filter_running t out (running p) Hnd Hget) as Hlen.
    pose proof (Hbody t out Hget) as Hout.
    destruct out as [df|err]; simpl.
    + split; simpl.
      * done.
      * done.
      * by apply NoDup_filter_keys.
      * intros t' out' Hin. apply list_elem_of_filter in Hin as [_ Hin].
        exact (Hbody t' out' Hin).
      * intros df' Hin. apply elem_of_app in Hin as [Hin|Hin].
        { by apply Hheap. }
        apply list_elem_of_singleton in Hin as ->. done.
      * intros id. rewrite length_app. simpl.
        destruct (cache (world p)) as [id'|] eqn:Hc; simpl.
        { intros [= <-]. specialize (Hcache id' eq_refl). lia. }
        { intros [= <-]. lia. }
      * intros t' r Hin. rewrite length_app. simpl.
        apply elem_of_app in Hin as [Hin|Hin].
        { specialize (Hres t' r Hin). destruct r; [lia|done]. }
        apply list_elem_of_singleton in Hin as [= -> ->]. lia.
      * rewrite length_app. simpl. lia.
      * done.
    + split; simpl.
      * done.
      * done.
      * by apply NoDup_filter_keys.
      * intros t' out' Hin. apply list_elem_of_filter in Hin as [_ Hin].
        exact (Hbody t' out' Hin).
      * done.
      * done.
      * intros t' r Hin. apply elem_of_app in Hin as [Hin|Hin].
        { exact (Hres t' r Hin). }
        apply list_elem_of_singleton in Hin as [= -> ->]. done.
      * rewrite length_app. simpl. lia.
      * intros Hc. rewrite length_app. simpl. rewrite Heq by done. lia.
Qed.

Lemma consistent_run src now es p :
  consistent src now p → consistent src now (run_events es p).
Proof.
  revert p. induction es as [|e es IH]; intros p Hp; [done|].
  unfold run_events. cbn [foldl]. by apply IH, consistent_step.
Qed.

(** Once the cache is filled it stays as it is, and the file is not opened
    again. *)
Lemma filled_step p e id :
  cache (world p) = Some id →
  cache (world (step p e)) = Some id ∧
  reads (world (step p e)) = reads (world p).
Proof.
  intros Hc. destruct e as [t|t]; simpl.
  - case_decide; [done|]. unfold start_call. by rewrite Hc.
  - destruct (dict_get t (running p)) as [[df|err]|]; simpl; [|done..].
    by rewrite Hc.
Qed.

Lemma filled_run es p id :
  cache (world p) = Some id →
  cache (world (run_events es p)) = Some id ∧
  reads (world (run_events es p)) = reads (world p).
Proof.
  revert p. induction es as [|e es IH]; intros p Hc; [done|].
  unfold run_events. cbn [foldl].
  destruct (filled_step p e id Hc) as [Hc' Hr'].
  destruct (IH (step p e) Hc') as [Hc'' Hr'']. unfold run_events in *.
  split; [done|]. by rewrite Hr''.
Qed.

Lemma filled_call p t id :
  cache (world p) = Some id → t ∉ (running p).*1 →
  step p (Call t) =
    {| world := world p; running := running p;
       returned := returned p ++ [(t, Ok id)] |}.
Proof.
  intros Hc Ht. simpl. rewrite decide_False by done.
  unfold start_call. by rewrite Hc.
Qed.

(** A call that nothing interrupts is [load_dataframe]. *)
Lemma call_then_return p t :
  t ∉ (running p).*1 →
  world (run_events [Call t; Return t] p) = (load_dataframe (world p)).2 ∧
  returned (run_events [Call t; Return t] p) =
    returned p ++ [(t, (load_dataframe (world p)).1)] ∧
  running (run_events [Call t; Return t] p) = running p.
Proof.
  intros Ht. unfold run_events. cbn [foldl]. unfold load_dataframe.
  cbn [step]. rewrite decide_False by done.
  destruct (start_call (world p)) as [[id|out] w] eqn:Hstart.
  - cbn [step running world returned].
    rewrite (proj2 (dict_get_None (running p) t)) by done. done.
  - cbn [step running world returned].
    assert (dict_get t (running p ++ [(t, out)]) = Some out) as ->.
    { clear Hstart. induction (running p) as [|[t' o'] d IH]; simpl.
      - by rewrite decide_True.
      - rewrite fmap_cons in Ht. apply not_elem_of_cons in Ht as [Hne Ht].
        rewrite decide_False by done. by apply IH. }
    split_and!; [done..|].
    rewrite filter_app, filter_cons, filter_nil. cbn [fst].
    rewrite decide_False by (intros Hne; by apply Hne).
    rewrite app_nil_r. apply filter_all, Forall_forall.
    intros [t2 o2] Hin Ht2. simpl in Ht2. subst t2. apply Ht.
    apply list_elem_of_fmap. by exists (t, o2).
Qed.
End overlap.




(** The content of a small source file as loaded on 28 February 2024, and
    two queries asked in both orders. *)
Example load_and_query_sample :
  let now := Date 2024 2 28 in
  let w0 := initial (Some sample_raw) now in
  ∃ df,
    @preprocess stable_kernel now sample_raw = Ok df ∧
    (λ r, (first_name r, age r)) <$> df = [("Ann", Some 23); ("Bob", None)] ∧
    @run_query stable_kernel (@q_gender_distribution stable_kernel)
        (@run_all stable_kernel
           [q_paginated_data 0 1; @q_top_earners stable_kernel 1] w0)
      = (Ok [(Some "F", 1%nat); (None, 1%nat)], loaded sample_raw now df) ∧
    @run_query stable_kernel (@q_gender_distribution stable_kernel)
        (@run_all stable_kernel
           [@q_top_earners stable_kernel 1; q_paginated_data 0 1] w0)
      = (Ok [(Some "F", 1%nat); (None, 1%nat)], loaded sample_raw now df).
Proof. eexists. split; [reflexivity|]. by vm_compute. Qed.

(** * Further properties *)

(** ** The listing route *)

Section listing_route.
Implicit Types (df : DataFrame) (page limit offset : Z).

Lemma page_records_get_all df page limit :
  1 ≤ page → 1 ≤ limit →
  page_records (get_all df page limit) =
    person_of_row <$>
      take (Z.to_nat limit) (drop (Z.to_nat ((page - 1) * limit)) df).
Proof.
  intros Hp Hl. unfold get_all.
  destruct (decide (Z.of_nat (length df) ≤ (page - 1) * limit)) as [Hout|Hin].
  - unfold get_paginated_data. rewrite decide_True by done. simpl.
    rewrite drop_ge by lia. by rewrite take_nil.
  - rewrite get_paginated_data_ok by nia. done.
Qed.

Lemma chunks {A} (k m : nat) (l : list A) :
  (length l ≤ m * k)%nat →
  mjoin ((λ i, take k (drop (i * k) l)) <$> seq 0 m) = l.
Proof.
  revert l. induction m as [|m IH]; intros l Hlen.
  - by destruct l; [|simpl in Hlen; lia].
  - assert (mjoin ((λ i, take k (drop (i * k) l)) <$> seq 1 m) = drop k l)
      as Htail.
    { etrans; [|apply (IH (drop k l)); rewrite length_drop; lia].
      rewrite <-fmap_S_seq, <-list_fmap_compose. f_equal.
      apply list_fmap_ext. intros _ i _. simpl.
      by rewrite drop_drop. }
    change (seq 0 (S m)) with (0%nat :: seq 1 m). rewrite fmap_cons.
    change (take k (drop (0 * k) l) ++
            mjoin ((λ i, take k (drop (i * k) l)) <$> seq 1 m) = l).
    rewrite Htail. apply take_drop.
Qed.

Lemma join_fmap_fmap {A B} (f : A → B) (ls : list (list A)) :
  mjoin (fmap f <$> ls) = f <$> mjoin ls.
Proof.
  induction ls as [|l ls IH]; [done|].
  rewrite fmap_cons.
  change ((f <$> l) ++ mjoin (fmap f <$> ls) = f <$> (l ++ mjoin ls)).
  by rewrite fmap_app, IH.
Qed.
End listing_route.

(** X1. For a page number and a page size of at least 1 the route
    [/employees] answers "not found" exactly when the page starts at or
    after the end of the dataset; otherwise the metadata gives back the
    page number asked for, the data is the block of [limit] records that
    starts at [(page - 1) * limit], [next_page] is [None] exactly when the
    block reaches the end of the dataset and [prev_page] exactly on page
    1. *)
Theorem X1_get_all_returns_requested_page (df : DataFrame) (page limit : Z) :
  1 ≤ page → 1 ≤ limit →
  let total := Z.of_nat (length df) in
  (get_all df page limit = Err NotFound ↔ total ≤ (page - 1) * limit) ∧
  ((page - 1) * limit < total →
     ∃ resp, get_all df page limit = Ok resp ∧
       current_page (pagination resp) = page ∧
       data resp = person_of_row <$>
         take (Z.to_nat limit) (drop (Z.to_nat ((page - 1) * limit)) df) ∧
       (next_page (pagination resp) = None ↔ total ≤ page * limit) ∧
       (next_page (pagination resp) ≠ None →
          next_page (pagination resp) = Some (page + 1)) ∧
       (prev_page (pagination resp) = None ↔ page = 1) ∧
       (prev_page (pagination resp) ≠ None →
          prev_page (pagination resp) = Some (page - 1))).
Proof.
  intros Hp Hl total. split.
  - unfold get_all, get_paginated_data. fold total. case_decide; [done|].
    rewrite decide_False by lia. split; [discriminate|lia].
  - intros Hin. unfold get_all. eexists.
    split; [apply get_paginated_data_ok; fold total; nia|].
    cbn [pagination data current_page next_page prev_page]. fold total.
    rewrite Z.div_mul by lia.
    pose proof (Z.mul_div_le (total + limit - 1) limit ltac:(lia)) as Hp1.
    pose proof (Z.mul_succ_div_gt (total + limit - 1) limit ltac:(lia)) as Hp2.
    set (pages := (total + limit - 1) `div` limit) in *.
    split_and!; try done; try lia.
    + case_decide; split; try done; try nia.
    + case_decide; [intros _; f_equal; lia|done].
    + case_decide; split; try done; try lia.
    + case_decide; [intros _; f_equal; lia|done].
Qed.

Lemma X1_get_all_returns_requested_page_witness :
  (1 ≤ 2 ∧ 1 ≤ 2) ∧
  ∃ resp, get_all three_rows 2 2 = Ok resp ∧
    current_page (pagination resp) = 2 ∧
    pr_first_name <$> data resp = ["Cid"].
Proof.
  split; [lia|].
  destruct (X1_get_all_returns_requested_page three_rows 2 2)
    as [_ Hok]; [lia..|].
  destruct Hok as (resp & Hr & Hc & Hd & _); [simpl; lia|].
  exists resp. split; [exact Hr|]. split; [exact Hc|].
  rewrite Hd. reflexivity.
Defined.

(** X2. For a page size of at least 1, the records of pages 1 to
    [total_pages], one after the other, are the whole dataset in dataset
    order: no record is skipped and none is listed twice. *)
Theorem X2_pages_tile_the_dataset (df : DataFrame) (limit : Z) :
  1 ≤ limit →
  let pages := (Z.of_nat (length df) + limit - 1) `div` limit in
  mjoin ((λ page, page_records (get_all df page limit)) <$> seqZ 1 pages)
    = person_of_row <$> df.
Proof.
  intros Hl pages. unfold seqZ. rewrite <-list_fmap_compose.
  pose proof (Z.mul_succ_div_gt (Z.of_nat (length df) + limit - 1) limit
                ltac:(lia)) as Hp2.
  fold pages in Hp2.
  transitivity
    (person_of_row <$>
       mjoin ((λ i, take (Z.to_nat limit) (drop (i * Z.to_nat limit) df))
                <$> seq 0 (Z.to_nat pages)));
    [|by rewrite chunks by nia].
  rewrite <-join_fmap_fmap, <-list_fmap_compose. f_equal.
  apply list_fmap_ext. intros _ i _. simpl.
  rewrite page_records_get_all by lia. do 3 f_equal. nia.
Qed.

Lemma X2_pages_tile_the_dataset_witness :
  1 ≤ 2 ∧
  pr_first_name <$>
    mjoin ((λ page, page_records (get_all three_rows page 2)) <$> seqZ 1 2)
    = ["Ann"; "Bob"; "Cid"].
Proof.
  split; [lia|].
  change (seqZ 1 2) with
    (seqZ 1 ((Z.of_nat (length three_rows) + 2 - 1) `div` 2)).
  rewrite (X2_pages_tile_the_dataset three_rows 2) by lia. reflexivity.
Defined.

(** X3. Whatever the offset and the limit, [get_paginated_data] has one of
    three outcomes: "not found" exactly when the offset is at or after the
    end of the dataset, also for a limit of zero; a division by zero
    exactly when the offset is before the end and the limit is zero; and
    otherwise a response whose [total_records] is the number of records.
    A negative offset is never "not found". *)
Theorem X3_paginated_data_outcomes (df : DataFrame) (offset limit : Z) :
  let total := Z.of_nat (length df) in
  (get_paginated_data df offset limit = Err NotFound ↔ total ≤ offset) ∧
  (get_paginated_data df offset limit = Err ZeroDivisionError
     ↔ offset < total ∧ limit = 0) ∧
  ((∃ resp, get_paginated_data df offset limit = Ok resp)
     ↔ offset < total ∧ limit ≠ 0) ∧
  (∀ resp, get_paginated_data df offset limit = Ok resp →
     total_records (pagination resp) = total ∧
     (Z.of_nat (length (data resp)) ≤ total)) ∧
  (offset < 0 → get_paginated_data df offset limit ≠ Err NotFound).
Proof.
  intros total. unfold get_paginated_data. fold total.
  assert (∀ resp : PaginatedDataResponse,
            length (data resp) = length (person_of_row <$>
              py_slice df offset (offset + limit)) →
            Z.of_nat (length (data resp)) ≤ total) as Hlen.
  { intros resp ->. rewrite length_fmap. unfold py_slice.
    rewrite length_take, length_drop. unfold total. lia. }
  destruct (decide (total ≤ offset)) as [Hout|Hin];
    [|destruct (decide (limit = 0)) as [Hz|Hnz]];
    (split_and!;
     [split; intros; (discriminate || lia || done)
     |split; intros; (discriminate || lia || done)
     |split; [intros [? ?]; (discriminate || lia)|intros; (lia || eauto)]
     |intros resp Hresp; try discriminate
     |intros Hneg; try discriminate; unfold total in *; lia]).
  injection Hresp as <-. split; [done|]. by apply Hlen.
Qed.

(** ** The list of industries *)

Section unique.
Context {A : Type} `{EqDecision A}.
Implicit Types (x k : A) (l : list A).

Lemma unique_snoc l x :
  unique (l ++ [x]) =
    if decide (x ∈ unique l) then unique l else unique l ++ [x].
Proof. unfold unique. by rewrite foldl_app. Qed.

Lemma elem_of_unique l x : x ∈ unique l ↔ x ∈ l.
Proof.
  induction l as [|y l IH] using rev_ind; [done|].
  rewrite unique_snoc, elem_of_app, list_elem_of_singleton, <-IH.
  case_decide as Hy; [|by rewrite elem_of_app, list_elem_of_singleton].
  split; [by left|]. by intros [?| ->].
Qed.

Lemma NoDup_unique l : NoDup (unique l).
Proof.
  induction l as [|y l IH] using rev_ind; [constructor|].
  rewrite unique_snoc. case_decide as Hy; [done|].
  apply NoDup_app. split_and!; [done| |apply NoDup_singleton].
  by intros x Hx ->%list_elem_of_singleton.
Qed.

Lemma keys_value_count l : (value_count l).*1 = unique l.
Proof.
  induction l as [|y l IH] using rev_ind; [done|].
  by rewrite value_count_snoc, keys_bump, unique_snoc, IH.
Qed.

Lemma first_index_app k l l' :
  first_index k (l ++ l') =
    match first_index k l with
    | Some i => Some i
    | None => (λ j, length l + j)%nat <$> first_index k l'
    end.
Proof.
  induction l as [|y l IH]; simpl.
  { by destruct (first_index k l'). }
  case_decide; [done|]. rewrite IH.
  destruct (first_index k l); [done|]. by destruct (first_index k l').
Qed.

Lemma first_index_Some k l : k ∈ l → ∃ i, first_index k l = Some i ∧ (i < length l)%nat.
Proof.
  induction l as [|y l IH]; [by intros ?%elem_of_nil|].
  intros Hk. simpl. case_decide as Hy.
  - exists 0%nat. split; [done|lia].
  - apply elem_of_cons in Hk as [->|Hk]; [done|].
    destruct (IH Hk) as (i & -> & Hi). exists (S i). split; [done|lia].
Qed.

Lemma first_index_None k l : k ∉ l → first_index k l = None.
Proof.
  induction l as [|y l IH]; [done|].
  intros [Hy Hk]%not_elem_of_cons. simpl.
  rewrite decide_False by done. by rewrite IH.
Qed.

Lemma first_seen_before_snoc l x a b :
  first_seen_before l a b → first_seen_before (l ++ [x]) a b.
Proof.
  intros (i & j & Hi & Hj & Hij). exists i, j.
  by rewrite !first_index_app, Hi, Hj.
Qed.
End unique.

Lemma industries_in_order_of_appearance (col : list (option string)) :
  StronglySorted (λ a b, first_seen_before col (Some a) (Some b))
    (unique (omap id col)).
Proof.
  induction col as [|x col IH] using rev_ind; [constructor|].
  assert (StronglySorted
            (λ a b, first_seen_before (col ++ [x]) (Some a) (Some b))
            (unique (omap id col))) as IH'.
  { rewrite <-(list_fmap_id (unique _)).
    eapply (StronglySorted_fmap id); [|exact IH].
    intros a b. apply first_seen_before_snoc. }
  rewrite omap_app. destruct x as [s|]; cbn [omap list_omap id].
  - rewrite unique_snoc. case_decide as Hs; [done|].
    apply StronglySorted_app. split_and!; [|done|repeat constructor].
    intros a b Ha ->%list_elem_of_singleton.
    apply elem_of_unique, list_elem_of_omap in Ha as (y & Hy & Hya).
    simpl in Hya. subst y.
    destruct (first_index_Some _ _ Hy) as (i & Hi & Hlt).
    exists i, (length col + 0)%nat. rewrite !first_index_app, Hi.
    split_and!; [done| |lia].
    rewrite first_index_None; [simpl; by rewrite decide_True|].
    intros Hin. apply Hs, elem_of_unique, list_elem_of_omap. by exists (Some s).
  - by rewrite app_nil_r.
Qed.

(** X4. [get_industries()] lists every industry that some record carries
    and nothing else, each once, never the missing marker, in the order in
    which the industries first appear in the dataset. *)
Theorem X4_industries_distinct_present_ordered (df : DataFrame) :
  NoDup (get_industries df) ∧
  (∀ s : string,
     s ∈ get_industries df ↔ ∃ r, r ∈ df ∧ industry r = Some s) ∧
  StronglySorted
    (λ a b, first_seen_before (industry <$> df) (Some a) (Some b))
    (get_industries df).
Proof.
  unfold get_industries. split_and!.
  - apply NoDup_unique.
  - intros s. rewrite elem_of_unique, list_elem_of_omap. split.
    + intros (x & (r & -> & Hr)%list_elem_of_fmap & Hx). by exists r.
    + intros (r & Hr & Hs). exists (Some s). split; [|done].
      apply list_elem_of_fmap. by exists r.
  - apply industries_in_order_of_appearance.
Qed.

(** ** Industries, distributions and the summary together *)

Section distribution_keys.
Context `{K : Kernel}.
Implicit Types (df : DataFrame) (col : list (option string)).

Lemma occurrences_elem col (k : option string) :
  occurrences k col ≠ 0%nat → k ∈ col.
Proof.
  unfold occurrences. intros Hocc.
  destruct (filter (λ x, x = k) col) as [|x l] eqn:Hf; [done|].
  assert (x ∈ filter (λ x, x = k) col) as Hx by (rewrite Hf; by left).
  by apply list_elem_of_filter in Hx as [-> ?].
Qed.

Lemma value_counts_industry_keys col :
  (value_counts true col).*1 ≡ₚ Some <$> unique (omap id col).
Proof.
  apply NoDup_Permutation.
  - apply NoDup_value_counts.
  - apply (NoDup_fmap_2 _), NoDup_unique.
  - intros k. split.
    + intros ([k' c] & -> & Hin)%list_elem_of_fmap. simpl.
      apply value_counts_industry_entry in Hin as (Hk & -> & Hpos).
      destruct k' as [s|]; [|done]. apply list_elem_of_fmap.
      exists s. split; [done|].
      apply elem_of_unique, list_elem_of_omap. exists (Some s).
      split; [|done]. apply occurrences_elem. lia.
    + intros (s & -> & Hs)%list_elem_of_fmap.
      apply elem_of_unique, list_elem_of_omap in Hs as (x & Hx & Hxs).
      simpl in Hxs. subst x. apply list_elem_of_fmap.
      exists (Some s, occurrences (Some s) col). split; [done|].
      by apply value_counts_industry_key.
Qed.

Lemma isnull_sum_complement {A} (col : list (option A)) :
  (isnull_sum col + length (filter (λ x, ¬ isna x) col) = length col)%nat.
Proof.
  unfold isnull_sum. rewrite <-length_app.
  apply Permutation_length, filter_app_complement.
Qed.
End distribution_keys.

(** X5. For [top_n >= 1] the industries of
    [get_industry_distribution(top_n)] are among those of
    [get_industries()], their number is [top_n] or the number of industries
    if that is smaller, and once [top_n] reaches the number of industries
    the two name the same industries. *)
Theorem X5_distribution_keys_are_industries `{K : Kernel}
    (df : DataFrame) (top_n : Z) :
  1 ≤ top_n →
  let d := get_industry_distribution df top_n in
  let industries := get_industries df in
  (∀ k, k ∈ d.*1 → ∃ s, k = Some s ∧ s ∈ industries) ∧
  Z.of_nat (length d) = Z.min top_n (Z.of_nat (length industries)) ∧
  (Z.of_nat (length industries) ≤ top_n → d.*1 ≡ₚ Some <$> industries).
Proof.
  intros Hn d industries. unfold d, industries, get_industry_distribution,
    get_industries.
  rewrite head_take by lia.
  pose proof (value_counts_industry_keys (industry <$> df)) as Hkeys.
  set (vcs := value_counts true (industry <$> df)) in *.
  assert (length vcs = length (unique (omap id (industry <$> df)))) as Hlen.
  { rewrite <-(length_fmap fst vcs), Hkeys. apply length_fmap. }
  split_and!.
  - intros k Hk. rewrite fmap_take in Hk. apply subseteq_take in Hk.
    rewrite Hkeys in Hk. apply list_elem_of_fmap in Hk as (s & -> & Hs).
    by exists s.
  - rewrite length_take, Hlen. lia.
  - intros Hall. rewrite take_ge by lia. done.
Qed.

Lemma X5_distribution_keys_are_industries_witness :
  1 ≤ 5 ∧
  get_industries three_rows = ["Tech"; "Retail"]%string ∧
  (@get_industry_distribution stable_kernel three_rows 5).*1
    ≡ₚ Some <$> get_industries three_rows.
Proof.
  split; [lia|]. split; [reflexivity|].
  apply (@X5_distribution_keys_are_industries stable_kernel three_rows 5);
    [lia|]. simpl. lia.
Defined.

Lemma sum_missing_entries {A} `{EqDecision A} (d : list (option A * nat)) :
  NoDup d.*1 →
  sum_list (filter (λ kv, isna kv.1) d).*2 = default 0%nat (dict_get None d).
Proof.
  induction d as [|[[a|] c] d IH]; intros Hnd; [done|..];
    rewrite fmap_cons in Hnd; apply NoDup_cons in Hnd as [Hout Hnd];
    rewrite filter_cons; cbn [fst isna].
  - rewrite decide_False by (by intros []). cbn [dict_get].
    rewrite decide_False by done. by apply IH.
  - rewrite decide_True by done. cbn [dict_get].
    rewrite decide_True by done. cbn [default fmap list_fmap snd sum_list].
    rewrite (filter_none (λ kv : option A * nat, isna kv.1) d).
    + simpl. lia.
    + apply Forall_forall. intros [[a|] c'] Hin; cbn [fst isna].
      * by intros [].
      * destruct Hout. apply list_elem_of_fmap. by exists (None, c').
Qed.

Lemma sum_filter_complement {B} (P : B * nat → Prop)
    `{∀ x, Decision (P x)} (d : list (B * nat)) :
  sum_list d.*2 =
    (sum_list (filter (λ kv, ¬ P kv) d).*2 + sum_list (filter P d).*2)%nat.
Proof.
  induction d as [|[b c] d IH]; [done|].
  rewrite !filter_cons, fmap_cons. cbn [snd sum_list].
  destruct (decide (P (b, c))) as [HP|HP].
  - rewrite decide_False by (by intros Hn). rewrite fmap_cons. simpl. lia.
  - rewrite decide_True by done. rewrite fmap_cons. simpl. lia.
Qed.

(** X6. The summary and the distributions account for every record: the
    counts of the gender distribution add up to [record_count]; the
    summary reports a number of missing genders, and the counts of the
    entries of the gender distribution whose key is a gender, together
    with that number, add up to [record_count]; and with [top_n] at least
    the number of industries, the counts of the industry distribution and
    the summary's number of missing industries add up to
    [record_count]. *)
Theorem X6_summary_accounts_for_distributions `{K : Kernel}
    (df : DataFrame) (top_n : Z) :
  Z.of_nat (length (get_industries df)) ≤ top_n →
  let summary := get_summary df in
  Z.of_nat (sum_list (get_gender_distribution df).*2) = record_count summary ∧
  (∃ missing, dict_get "gender" (missing_values summary) = Some missing ∧
     Z.of_nat
       (sum_list (filter (λ kv, ¬ isna kv.1) (get_gender_distribution df)).*2
        + missing) = record_count summary) ∧
  (∃ missing, dict_get "industry" (missing_values summary) = Some missing ∧
     Z.of_nat (sum_list (get_industry_distribution df top_n).*2 + missing)
       = record_count summary).
Proof.
  intros Hn summary.
  assert (Z.of_nat (sum_list (get_gender_distribution df).*2)
          = record_count summary) as Htotal.
  { unfold get_gender_distribution. rewrite sum_value_counts. simpl.
    by rewrite length_fmap. }
  split_and!.
  - exact Htotal.
  - exists (isnull_sum (gender <$> df)). split; [reflexivity|].
    rewrite <-Htotal.
    rewrite (sum_filter_complement (λ kv, isna kv.1)
               (get_gender_distribution df)).
    do 2 f_equal. unfold get_gender_distribution.
    rewrite sum_missing_entries by apply NoDup_value_counts.
    rewrite dict_get_value_counts. simpl.
    assert (occurrences None (gender <$> df) = isnull_sum (gender <$> df))
      as ->.
    { unfold occurrences, isnull_sum. f_equal. apply list_filter_iff.
      intros [g|]; simpl; split; done. }
    by case_decide as Hz; [rewrite Hz|].
  - exists (isnull_sum (industry <$> df)). split; [reflexivity|].
    unfold get_industry_distribution. simpl.
    destruct (decide (0 ≤ top_n)) as [Hpos|Hneg].
    + rewrite head_take by done.
      pose proof (value_counts_industry_keys (industry <$> df)) as Hkeys.
      assert (length (value_counts true (industry <$> df)) =
              length (get_industries df)) as Hlen.
      { rewrite <-(length_fmap fst (value_counts _ _)), Hkeys.
        apply length_fmap. }
      rewrite take_ge by lia. rewrite sum_value_counts.
      pose proof (isnull_sum_complement (industry <$> df)) as Hsum.
      rewrite length_fmap in Hsum. unfold counted. lia.
    + lia.
Qed.

Lemma X6_summary_accounts_for_distributions_witness :
  Z.of_nat (length (get_industries three_rows)) ≤ 2 ∧
  dict_get "industry" (missing_values (get_summary three_rows)) = Some 1%nat ∧
  dict_get "gender" (missing_values (get_summary three_rows)) = Some 1%nat ∧
  ∃ missing,
    dict_get "gender" (missing_values (get_summary three_rows))
      = Some missing ∧
    Z.of_nat
      (sum_list (filter (λ kv, ¬ isna kv.1)
                   (@get_gender_distribution stable_kernel three_rows)).*2
       + missing) = record_count (get_summary three_rows).
Proof.
  split; [simpl; lia|]. split; [reflexivity|]. split; [reflexivity|].
  destruct (@X6_summary_accounts_for_distributions stable_kernel three_rows 2)
    as (_ & Hgender & _); [simpl; lia|].
  exact Hgender.
Defined.

(** ** The age *)

(** X8. The age is non-negative exactly when the date of birth is not
    after the current date, and it never decreases as the current date
    advances. *)
Theorem X8_age_sign_and_monotony (today later born : date) :
  (0 ≤ calculate_age today born ↔ date_le born today) ∧
  (date_le today later →
     calculate_age today born ≤ calculate_age later born).
Proof.
  unfold calculate_age, date_le.
  destruct today as [ty tm td], later as [ly lm ld], born as [by_ bm bd].
  cbn [year month day]. split.
  - case_bool_decide; lia.
  - intros Hle. repeat case_bool_decide; lia.
Qed.

Lemma X8_age_sign_and_monotony_witness :
  date_le (Date 2024 2 28) (Date 2024 2 29) ∧
  calculate_age (Date 2024 2 28) (Date 2000 2 29) = 23 ∧
  calculate_age (Date 2024 2 29) (Date 2000 2 29) = 24 ∧
  calculate_age (Date 2024 2 28) (Date 2000 2 29)
    ≤ calculate_age (Date 2024 2 29) (Date 2000 2 29).
Proof.
  assert (date_le (Date 2024 2 28) (Date 2024 2 29)) as Hle
    by (unfold date_le; simpl; lia).
  split; [exact Hle|]. split; [reflexivity|]. split; [reflexivity|].
  apply (X8_age_sign_and_monotony (Date 2024 2 28) (Date 2024 2 29)
           (Date 2000 2 29)), Hle.
Defined.

(** ** Looking a person up *)

(** X9. Whatever [str.lower] does, [get_individual_record] returns one
    record per row whose lower-cased names equal the lower-cased
    arguments, in dataset order and as many as there are such rows: the
    rows split into those that match and the others, and the result is
    the projection of the first, which keep the order of the dataset.  So
    every row is found under its own names, a name that no row carries
    gives the empty list, the lookup in two datasets put end to end is the
    two lookups put end to end, and the records returned are among those
    of the complete listing. *)
Theorem X9_person_lookup_exact (lower : string → string)
    (df : DataFrame) (first last : string) :
  let found := get_individual_record lower df first last in
  let matches (r : Row) :=
    lower (first_name r) = lower first ∧ lower (last_name r) = lower last in
  (∃ matched rest,
     found = person_of_row <$> matched ∧
     matched `sublist_of` df ∧ df ≡ₚ matched ++ rest ∧
     Forall matches matched ∧ Forall (λ r, ¬ matches r) rest) ∧
  (∀ p, p ∈ found ↔ ∃ r, r ∈ df ∧ p = person_of_row r ∧ matches r) ∧
  found `sublist_of` person_of_row <$> df ∧
  (∀ r, r ∈ df →
     person_of_row r ∈
       get_individual_record lower df (first_name r) (last_name r)) ∧
  ((∀ r, r ∈ df → lower (first_name r) ≠ lower first) → found = []) ∧
  (∀ df1 df2, df = df1 ++ df2 →
     found = get_individual_record lower df1 first last
               ++ get_individual_record lower df2 first last) ∧
  found `sublist_of`
    page_records (get_paginated_data df 0 (Z.max 1 (Z.of_nat (length df)))).
Proof.
  intros found matches. unfold found, get_individual_record. cbv zeta.
  fold matches.
  assert (∀ p, p ∈ person_of_row <$> filter matches df ↔
          ∃ r, r ∈ df ∧ p = person_of_row r ∧ matches r) as Hchar.
  { intros p. rewrite list_elem_of_fmap. split.
    - intros (r & -> & [Hm Hr]%list_elem_of_filter). by exists r.
    - intros (r & Hr & -> & Hm). exists r. split; [done|].
      by apply list_elem_of_filter. }
  split_and!.
  - exists (filter matches df), (filter (λ r, ¬ matches r) df). split_and!.
    + done.
    + apply sublist_filter.
    + by rewrite filter_app_complement.
    + apply Forall_forall. by intros r [Hm _]%list_elem_of_filter.
    + apply Forall_forall. by intros r [Hm _]%list_elem_of_filter.
  - exact Hchar.
  - apply fmap_sublist, sublist_filter.
  - intros r Hr. apply list_elem_of_fmap. exists r. split; [done|].
    by apply list_elem_of_filter.
  - intros Hnone. rewrite (filter_none matches); [done|].
    apply Forall_forall. intros r Hr [Hf _]. by apply (Hnone r).
  - intros df1 df2 ->. rewrite <-fmap_app. f_equal. apply filter_app.
  - destruct df as [|r0 df0] eqn:Hdf; [done|]. rewrite <-Hdf.
    assert (0 < Z.of_nat (length df)) as Hpos by (rewrite Hdf; simpl; lia).
    rewrite get_paginated_data_ok by lia. cbn [page_records data].
    rewrite drop_0, take_ge by lia. apply fmap_sublist, sublist_filter.
Qed.

(** X10. The lookup does not tell apart two spellings of a name that
    [str.lower] maps to the same text. *)
Theorem X10_person_lookup_ignores_case (lower : string → string)
    (df : DataFrame) (first first' last last' : string) :
  lower first = lower first' → lower last = lower last' →
  get_individual_record lower df first last =
    get_individual_record lower df first' last'.
Proof.
  intros Hf Hl. unfold get_individual_record. by rewrite Hf, Hl.
Qed.

Lemma X10_person_lookup_ignores_case_witness :
  string_lower "ANN" = string_lower "ann" ∧
  string_lower "Doe" = string_lower "DOE" ∧
  pr_first_name <$> get_individual_record string_lower three_rows "ANN" "Doe"
    = ["Ann"] ∧
  get_individual_record string_lower three_rows "ANN" "Doe" =
    get_individual_record string_lower three_rows "ann" "DOE".
Proof.
  split; [reflexivity|]. split; [reflexivity|]. split; [reflexivity|].
  apply (X10_person_lookup_ignores_case string_lower three_rows); reflexivity.
Defined.

(** ** The statistics routes *)

Section stats_route.
Context `{K : Kernel}.
Implicit Types (col : list (option Qc)) (df : DataFrame).

Lemma describe_count col :
  dict_get "count" (dropna_to_dict (describe col)) =
    Some (Qc_of_Z (Z.of_nat (length (omap id col)))).
Proof. reflexivity. Qed.

Lemma length_merge_sort_Qcle (vals : list Qc) :
  length (merge_sort Qcle vals) = length vals.
Proof. apply Permutation_length, merge_sort_Permutation. Qed.

(** With two values or more the five required statistics are there. *)
Lemma validate_describe_ok col :
  (2 ≤ length (omap id col))%nat →
  ∃ resp, validate_StatsResponse (dropna_to_dict (describe col)) = Ok resp ∧
    sr_count resp = Qc_of_Z (Z.of_nat (length (omap id col))) ∧
    sr_mean resp = Qmean (omap id col) ∧
    Some (sr_min resp) = merge_sort Qcle (omap id col) !! 0%nat ∧
    Some (sr_max resp) = last (merge_sort Qcle (omap id col)).
Proof.
  intros Hlen. unfold describe. set (vals := omap id col) in *.
  pose proof (length_merge_sort_Qcle vals) as Hsorted.
  set (sorted := merge_sort Qcle vals) in *.
  rewrite (decide_False (P := Z.of_nat (length vals) = 0)) by lia.
  rewrite (decide_False (P := Z.of_nat (length vals) ≤ 1)) by lia.
  destruct (sorted !! 0%nat) as [mn|] eqn:Hmin;
    [|apply lookup_ge_None in Hmin; lia].
  destruct (last sorted) as [mx|] eqn:Hmax;
    [|rewrite last_lookup in Hmax; apply lookup_ge_None in Hmax; lia].
  destruct (quantile sorted (Q2Qc (1 # 4))), (quantile sorted (Q2Qc (1 # 2))),
    (quantile sorted (Q2Qc (3 # 4))); eexists; (split; [reflexivity|done]).
Qed.

Lemma length_present col :
  length (omap id col) = length (filter (λ x, ¬ isna x) col).
Proof.
  induction col as [|x col IH]; [done|].
  rewrite filter_cons. destruct x; cbn [omap list_omap id isna].
  - rewrite decide_True by (by intros []). simpl. by rewrite IH.
  - by rewrite decide_False by (by intros []).
Qed.

Lemma stats_route_outcome (by_ : Row → option Qc) (rows : list Row) :
  let d := dropna_to_dict (describe (by_ <$> rows)) in
  let n := length (omap by_ rows) in
  dict_get "count" d = Some (Qc_of_Z (Z.of_nat n)) ∧
  (validate_StatsResponse d = Err ResponseValidationError ↔ (n ≤ 1)%nat) ∧
  ((2 ≤ n)%nat →
     ∃ resp, validate_StatsResponse d = Ok resp ∧
       sr_count resp = Qc_of_Z (Z.of_nat n)) ∧
  (n + isnull_sum (by_ <$> rows) = length rows)%nat.
Proof.
  intros d n. unfold d, n. rewrite <-(omap_id_fmap by_ rows). split_and!.
  - apply describe_count.
  - split.
    + intros Herr.
      destruct (decide (length (omap id (by_ <$> rows)) ≤ 1)%nat)
        as [|Hmany]; [done|].
      destruct (validate_describe_ok (by_ <$> rows)) as (resp & Hok & _);
        [lia|]. by rewrite Hok in Herr.
    + intros Hfew. by apply validate_without_std, describe_no_std.
  - intros Hmany.
    destruct (validate_describe_ok (by_ <$> rows) Hmany)
      as (resp & Hok & Hcount & _). by exists resp.
  - pose proof (isnull_sum_complement (by_ <$> rows)) as Hsum.
    rewrite length_fmap in Hsum. rewrite length_present. lia.
Qed.
End stats_route.



(** ** Correlations without variance *)

Section constant_column.
Context `{K : Kernel}.
Implicit Types (l : list Qc) (c : Qc).

Lemma Qsum_const l c :
  Forall (λ x, x = c) l → Qsum l = (Qc_of_Z (Z.of_nat (length l)) * c)%Qc.
Proof.
  induction 1 as [|x l -> _ IH].
  - cbn [Qsum foldr length]. change (Z.of_nat 0) with 0.
    rewrite Z2Qc_inj_0. ring.
  - cbn [Qsum foldr length]. fold (Qsum l). rewrite IH.
    rewrite Nat2Z.inj_succ, <-Z.add_1_r, Z2Qc_inj_add, Z2Qc_inj_1. ring.
Qed.

Lemma Qsum_zero l : Forall (λ x, x = 0%Qc) l → Qsum l = 0%Qc.
Proof. intros Hl. rewrite (Qsum_const l 0%Qc Hl). ring. Qed.

Lemma ssqdm_const l c : Forall (λ x, x = c) l → ssqdm l = 0%Qc.
Proof.
  intros Hl. destruct l as [|x0 l0] eqn:Heq; [done|]. rewrite <-Heq in *.
  assert (Qmean l = c) as Hmean.
  { unfold Qmean. rewrite (Qsum_const l c Hl). field.
    rewrite <-Z2Qc_inj_0. intros Hz%Z2Qc_inj. rewrite Heq in Hz.
    simpl in Hz. lia. }
  unfold ssqdm. rewrite Hmean. apply Qsum_zero, Forall_fmap.
  eapply Forall_impl; [exact Hl|]. intros x ->. simpl. ring.
Qed.

Lemma zip_columns_paired (x y : Row → option Qc) (df : DataFrame) :
  omap (λ xy, a ← xy.1; b ← xy.2; Some (a, b)) (zip (x <$> df) (y <$> df))
    = paired x y df.
Proof.
  unfold paired. induction df as [|r df IH]; [done|].
  rewrite !fmap_cons. cbn [zip zip_with omap list_omap]. rewrite IH.
  simpl. by destruct (x r), (y r).
Qed.

Lemma nancorr_undefined (x y : Row → option Qc) (df : DataFrame) c :
  (length (paired x y df) < 2)%nat ∨
  Forall (λ p, p.1 = c) (paired x y df) ∨
  Forall (λ p, p.2 = c) (paired x y df) →
  nancorr (x <$> df) (y <$> df) = None.
Proof.
  intros [Hfew|Hconst].
  { apply nancorr_few. by rewrite zip_columns_paired. }
  unfold nancorr. rewrite zip_columns_paired.
  case_decide; [done|].
  assert ((ssqdm (paired x y df).*1 * ssqdm (paired x y df).*2)%Qc = 0%Qc)
    as ->; [|by rewrite fsqrt_0, decide_True].
  destruct Hconst as [Hc|Hc].
  - rewrite (ssqdm_const _ c); [ring|]. by apply Forall_fmap.
  - rewrite (ssqdm_const (paired x y df).*2 c); [ring|]. by apply Forall_fmap.
Qed.
End constant_column.

(** X12. A coefficient of [get_correlations] is [None] whenever fewer than
    two records hold both values, and whenever one of the two columns has
    the same value in all the records that hold both: no variance, no
    correlation, and no error. *)
Theorem X12_correlation_undefined `{K : Kernel} (df : DataFrame) (c : Qc) :
  let se := paired salary years_of_experience df in
  let ea := paired years_of_experience (λ r, Qc_of_Z <$> age r) df in
  ((length se < 2)%nat ∨ Forall (λ p, p.1 = c) se ∨ Forall (λ p, p.2 = c) se →
     salary_vs_experience (get_correlations df) = None) ∧
  ((length ea < 2)%nat ∨ Forall (λ p, p.1 = c) ea ∨ Forall (λ p, p.2 = c) ea →
     experience_vs_age (get_correlations df) = None).
Proof.
  intros se ea. unfold get_correlations. split; intros Hdeg; simpl.
  - by rewrite (nancorr_undefined salary years_of_experience df c).
  - by rewrite (nancorr_undefined years_of_experience
                  (λ r, Qc_of_Z <$> age r) df c).
Qed.

Lemma X12_correlation_undefined_witness :
  Forall (λ p, p.1 = Qc_of_Z 10)
    (paired salary years_of_experience equal_pay_rows) ∧
  length (paired salary years_of_experience equal_pay_rows) = 3%nat ∧
  salary_vs_experience (@get_correlations stable_kernel equal_pay_rows) = None.
Proof.
  assert (Forall (λ p, p.1 = Qc_of_Z 10)
            (paired salary years_of_experience equal_pay_rows)) as Hconst
    by (repeat constructor).
  split; [exact Hconst|]. split; [reflexivity|].
  destruct (@X12_correlation_undefined stable_kernel equal_pay_rows
              (Qc_of_Z 10)) as [Hse _].
  apply Hse. right. left. exact Hconst.
Defined.

(** ** Rankings of different lengths *)

Section head_properties.
Context {A : Type}.
Implicit Types (l : list A) (n m : Z).

Lemma head_prefix l n m :
  0 ≤ n ≤ m → head l n = take (Z.to_nat n) (head l m).
Proof.
  intros Hnm. rewrite !head_take by lia. rewrite take_take. f_equal. lia.
Qed.

Lemma head_all l n : Z.of_nat (length l) ≤ n → head l n = l.
Proof. intros Hn. rewrite head_take by lia. apply take_ge. lia. Qed.

Lemma head_negative l n :
  n < 0 → head l n = take (Z.to_nat (Z.of_nat (length l) + n)) l.
Proof.
  intros Hn. unfold head, py_slice, slice_bound.
  rewrite (decide_False (P := 0 < 0)) by lia.
  rewrite (decide_True (P := n < 0)) by done.
  rewrite (Z.min_l 0) by lia. change (Z.to_nat 0) with 0%nat.
  rewrite drop_0. f_equal. lia.
Qed.

Lemma head_zero l : head l 0 = [].
Proof. by rewrite head_take. Qed.

Lemma head_subseteq l n : head l n ⊆ l.
Proof.
  unfold head, py_slice. etrans; [apply subseteq_take|apply subseteq_drop].
Qed.
End head_properties.

(** X13. A shorter ranking is the beginning of a longer one: for
    [0 <= n <= m], [get_top_earners(n)], [get_top_experienced(n)] and
    [get_industry_distribution(n)] are the first [n] entries of the same
    call with [m]; once [n] reaches the number of records the two rankings
    hold every record of the dataset. *)
Theorem X13_rankings_are_prefixes `{K : Kernel} (df : DataFrame) (n m : Z) :
  0 ≤ n ≤ m →
  get_top_earners df n = take (Z.to_nat n) (get_top_earners df m) ∧
  get_top_experienced df n = take (Z.to_nat n) (get_top_experienced df m) ∧
  get_industry_distribution df n =
    take (Z.to_nat n) (get_industry_distribution df m) ∧
  (Z.of_nat (length df) ≤ n →
     get_top_earners df n ≡ₚ top_columns salary <$> df ∧
     get_top_experienced df n ≡ₚ top_columns years_of_experience <$> df).
Proof.
  intros Hnm. unfold get_top_earners, get_top_experienced,
    get_industry_distribution.
  rewrite <-!fmap_take, <-!(head_prefix _ n m) by done.
  split_and!; try done.
  intros Hall.
  destruct (sort_values_descending salary df) as (_ & _ & _ & Hp1 & _).
  destruct (sort_values_descending years_of_experience df)
    as (_ & _ & _ & Hp2 & _).
  rewrite !head_all by (by rewrite ?Hp1, ?Hp2).
  by rewrite Hp1, Hp2.
Qed.

Lemma X13_rankings_are_prefixes_witness :
  0 ≤ 1 ≤ 3 ∧
  te_first_name <$> @get_top_earners stable_kernel three_rows 3
    = ["Bob"; "Ann"; "Cid"] ∧
  @get_top_earners stable_kernel three_rows 1 =
    take 1 (@get_top_earners stable_kernel three_rows 3).
Proof.
  split; [lia|]. split; [reflexivity|].
  apply (@X13_rankings_are_prefixes stable_kernel three_rows 1 3). lia.
Defined.

(** X14. Called with a negative [n], which the routes do not let
    through, [get_top_earners] and [get_top_experienced] do not fail: they
    return the complete ranking without its last [-n] records, hence
    nothing for [n <= -total]; called with 0 they return nothing. *)
Theorem X14_ranking_without_the_last `{K : Kernel} (df : DataFrame) (n : Z) :
  n < 0 →
  let total := Z.of_nat (length df) in
  get_top_earners df n =
    take (Z.to_nat (total + n)) (get_top_earners df total) ∧
  get_top_experienced df n =
    take (Z.to_nat (total + n)) (get_top_experienced df total) ∧
  Z.of_nat (length (get_top_earners df n)) = Z.max 0 (total + n) ∧
  (n ≤ - total → get_top_earners df n = []) ∧
  get_top_earners df 0 = [] ∧
  get_top_experienced df 0 = [].
Proof.
  intros Hn total.
  destruct (sort_values_descending salary df) as (_ & _ & _ & Hp1 & _).
  destruct (sort_values_descending years_of_experience df)
    as (_ & _ & _ & Hp2 & _).
  apply Permutation_length in Hp1, Hp2.
  assert (get_top_earners df n =
          take (Z.to_nat (total + n)) (get_top_earners df total)) as Hearn.
  { unfold get_top_earners. rewrite head_negative by done.
    rewrite (head_all _ total) by (unfold total; lia).
    by rewrite fmap_take, Hp1. }
  assert (length (get_top_earners df total) = length df) as Hlen.
  { unfold get_top_earners. rewrite head_all by (unfold total; lia).
    by rewrite length_fmap. }
  split_and!.
  - exact Hearn.
  - unfold get_top_experienced. rewrite head_negative by done.
    rewrite (head_all _ total) by (unfold total; lia).
    by rewrite fmap_take, Hp2.
  - rewrite Hearn, length_take, Hlen. unfold total. lia.
  - intros Hnone. rewrite Hearn.
    replace (Z.to_nat (total + n)) with 0%nat by (unfold total in *; lia).
    done.
  - unfold get_top_earners. by rewrite head_zero.
  - unfold get_top_experienced. by rewrite head_zero.
Qed.

Lemma X14_ranking_without_the_last_witness :
  -1 < 0 ∧
  te_first_name <$> @get_top_earners stable_kernel three_rows (-1)
    = ["Bob"; "Ann"].
Proof.
  split; [lia|].
  destruct (@X14_ranking_without_the_last stable_kernel three_rows (-1))
    as (-> & _); [lia|]. reflexivity.
Defined.

(** ** A source file that cannot be read *)

Section unreadable.
Context `{K : Kernel}.

Lemma run_query_unreadable (q : query) (w : World) :
  source w = None → cache w = None →
  let out := run_query q w in
  out.1 = Err SourceError ∧
  source out.2 = None ∧ cache out.2 = None ∧ heap out.2 = heap w ∧
  reads out.2 = S (reads w).
Proof.
  intros Hs Hc. unfold run_query.
  rewrite (load_dataframe_failed w SourceError Hc)
    by (unfold body; by rewrite Hs).
  done.
Qed.

Lemma run_all_unreadable_reads (qs : list query) (w : World) :
  source w = None → cache w = None →
  source (run_all qs w) = None ∧ cache (run_all qs w) = None ∧
  reads (run_all qs w) = (reads w + length qs)%nat.
Proof.
  revert w. induction qs as [|q qs IH]; intros w Hs Hc.
  { simpl. split_and!; [done..|lia]. }
  destruct (run_query_unreadable q w Hs Hc) as (_ & Hs' & Hc' & _ & Hr').
  unfold run_all. cbn [foldl]. fold (run_all qs (run_query q w).2).
  destruct (IH _ Hs' Hc') as (? & ? & Hr). split_and!; [done..|].
  rewrite Hr, Hr'. simpl. lia.
Qed.
End unreadable.

(** X15. While the source file cannot be read, a failure is not
    remembered: every query fails with the loading error, and every query
    opens the file again, so after any queries the file has been opened
    once per query and nothing is cached. *)
Theorem X15_failed_load_is_retried `{K : Kernel}
    (now : date) (qs : list query) (q : query) :
  let w := run_all qs (initial None now) in
  reads w = length qs ∧
  cache w = None ∧
  (run_query q w).1 = Err SourceError ∧
  reads (run_query q w).2 = S (length qs).
Proof.
  intros w.
  destruct (run_all_unreadable_reads qs (initial None now) eq_refl eq_refl)
    as (Hs & Hc & Hr).
  destruct (run_query_unreadable q w Hs Hc) as (Hout & _ & _ & _ & Hr').
  fold w in Hr. simpl in Hr. by rewrite Hr', Hr.
Qed.

(** ** The distribution routes *)

Section distribution_routes.
Context `{K : Kernel}.
Implicit Types (d : list (option string * nat)) (df : DataFrame).

Lemma validate_distribution_ok d :
  None ∉ d.*1 →
  ∃ ok : list (string * nat), validate_distribution d = Ok ok ∧
        (λ kv, (Some kv.1, kv.2)) <$> ok = d.
Proof.
  intros Hkeys. unfold validate_distribution.
  assert (Forall (λ kv : option string * nat, ¬ isna kv.1) d) as Hd.
  { apply Forall_forall. intros [[s|] c] Hin; simpl; [by intros []|].
    destruct Hkeys. apply list_elem_of_fmap. by exists (None, c). }
  rewrite decide_True by done. eexists. split; [done|].
  clear Hkeys. induction Hd as [|[[s|] c] d Hk _ IH]; [done| |].
  - cbn [omap list_omap fmap option_fmap option_map fst snd].
    rewrite fmap_cons. simpl. by rewrite IH.
  - by destruct Hk.
Qed.

Lemma validate_distribution_err d :
  None ∈ d.*1 → validate_distribution d = Err ResponseValidationError.
Proof.
  intros ([k c] & Hk & Hin)%list_elem_of_fmap. simpl in Hk. subst k.
  unfold validate_distribution. rewrite decide_False; [done|].
  intros Hd. rewrite Forall_forall in Hd. by apply (Hd _ Hin).
Qed.

Lemma gender_missing_key df :
  None ∈ (get_gender_distribution df).*1 ↔ ∃ r, r ∈ df ∧ gender r = None.
Proof.
  unfold get_gender_distribution.
  destruct (value_counts_sorted false (gender <$> df)) as [Hperm _].
  rewrite Hperm. simpl. rewrite keys_value_count, elem_of_unique.
  rewrite list_elem_of_fmap. split.
  - intros (r & Hg & Hr). by exists r.
  - intros (r & Hr & Hg). by exists r.
Qed.
End distribution_routes.

(** X16. The gender distribution is in descending order of count, every
    count is positive, and its keys are the distinct gender values of the
    dataset, the missing marker among them when a record lacks the
    gender. *)
Theorem X16_gender_distribution_ranked `{K : Kernel} (df : DataFrame) :
  let d := get_gender_distribution df in
  StronglySorted count_ge d ∧
  (∀ k c, (k, c) ∈ d → (0 < c)%nat) ∧
  d.*1 ≡ₚ unique (gender <$> df) ∧
  (None ∈ d.*1 ↔ ∃ r, r ∈ df ∧ gender r = None).
Proof.
  intros d. unfold d.
  destruct (value_counts_sorted false (gender <$> df)) as [Hperm Hsorted].
  split_and!.
  - exact Hsorted.
  - intros k c Hin.
    apply dict_get_elem in Hin; [|apply NoDup_value_counts].
    unfold get_gender_distribution in Hin.
    rewrite dict_get_value_counts in Hin.
    destruct (decide (occurrences k (counted false (gender <$> df)) = 0)%nat)
      as [|Hpos]; [done|].
    injection Hin as Hin. rewrite <-Hin. unfold counted in Hpos. lia.
  - unfold get_gender_distribution. rewrite Hperm. simpl.
    by rewrite keys_value_count.
  - apply gender_missing_key.
Qed.

(** X17. The route [/gender/distribution] fails with a response validation
    error exactly when some record lacks the gender, the key of the
    missing marker not being text; otherwise it returns the distribution as
    it is.  The route [/industry/distribution] never fails, whatever
    [top_n]. *)
Theorem X17_distribution_routes `{K : Kernel} (df : DataFrame) (top_n : Z) :
  (gender_distribution df = Err ResponseValidationError
     ↔ ∃ r, r ∈ df ∧ gender r = None) ∧
  ((∀ r, r ∈ df → gender r ≠ None) →
     ∃ d, gender_distribution df = Ok d ∧
          (λ kv, (Some kv.1, kv.2)) <$> d = get_gender_distribution df) ∧
  (∃ d, industry_distribution df top_n = Ok d ∧
        (λ kv, (Some kv.1, kv.2)) <$> d = get_industry_distribution df top_n).
Proof.
  split_and!.
  - unfold gender_distribution. rewrite <-gender_missing_key. split.
    + intros Herr.
      destruct (decide (None ∈ (get_gender_distribution df).*1))
        as [|Hout]; [done|].
      destruct (validate_distribution_ok _ Hout) as (d & Hok & _).
      by rewrite Hok in Herr.
    + apply validate_distribution_err.
  - intros Hall. apply validate_distribution_ok.
    rewrite gender_missing_key. intros (r & Hr & Hg). by apply (Hall r).
  - apply validate_distribution_ok. unfold get_industry_distribution.
    intros ([k c] & Hk & Hin%head_subseteq)%list_elem_of_fmap.
    simpl in Hk. subst k.
    by apply value_counts_industry_entry in Hin as (? & _).
Qed.

Lemma X17_distribution_routes_witness :
  (∀ r, r ∈ two_equal_earners → gender r ≠ None) ∧
  @gender_distribution stable_kernel two_equal_earners
    = Ok [("F"%string, 1%nat); ("M"%string, 1%nat)] ∧
  @gender_distribution stable_kernel three_rows = Err ResponseValidationError.
Proof.
  assert (∀ r, r ∈ two_equal_earners → gender r ≠ None) as Hall.
  { intros r Hr. repeat (apply elem_of_cons in Hr as [->|Hr]; [done|]).
    by apply elem_of_nil in Hr. }
  destruct (@X17_distribution_routes stable_kernel two_equal_earners 1)
    as (_ & Hok & _).
  destruct (Hok Hall) as (d & Hd & _).
  split; [exact Hall|]. split; reflexivity.
Defined.

(** ** The first of a ranking and the maximum of the statistics *)

Section top_is_max.
Context `{K : Kernel} (by_ : Row → option Qc).
Implicit Types (df : DataFrame) (col : list (option Qc)).

Lemma describe_max col :
  dict_get "max" (dropna_to_dict (describe col)) =
    last (merge_sort Qcle (omap id col)).
Proof.
  unfold describe. set (vals := omap id col).
  set (sorted := merge_sort Qcle vals).
  destruct (decide (Z.of_nat (length vals) = 0)),
    (decide (Z.of_nat (length vals) ≤ 1)), (sorted !! 0%nat),
    (quantile sorted (Q2Qc (1 # 4))), (quantile sorted (Q2Qc (1 # 2))),
    (quantile sorted (Q2Qc (3 # 4))), (last sorted); reflexivity.
Qed.

Lemma describe_min col :
  dict_get "min" (dropna_to_dict (describe col)) =
    merge_sort Qcle (omap id col) !! 0%nat.
Proof.
  unfold describe. set (vals := omap id col).
  set (sorted := merge_sort Qcle vals).
  destruct (decide (Z.of_nat (length vals) = 0)),
    (decide (Z.of_nat (length vals) ≤ 1)), (sorted !! 0%nat),
    (quantile sorted (Q2Qc (1 # 4))), (quantile sorted (Q2Qc (1 # 2))),
    (quantile sorted (Q2Qc (3 # 4))), (last sorted); reflexivity.
Qed.

Lemma sorted_Qcle (vals : list Qc) : StronglySorted Qcle (merge_sort Qcle vals).
Proof. apply StronglySorted_merge_sort; apply _. Qed.

Lemma last_is_maximum (vals : list Qc) (mx : Qc) :
  last (merge_sort Qcle vals) = Some mx →
  mx ∈ vals ∧ ∀ v, v ∈ vals → (v ≤ mx)%Qc.
Proof.
  intros Hlast. pose proof (sorted_Qcle vals) as Hsorted.
  pose proof (merge_sort_Permutation Qcle vals) as Hperm.
  apply last_Some in Hlast as [l' Hl']. rewrite Hl' in Hsorted, Hperm.
  apply StronglySorted_app in Hsorted as (Hcross & _ & _). split.
  - rewrite <-Hperm. apply elem_of_app. right. by left.
  - intros v Hv. rewrite <-Hperm in Hv.
    apply elem_of_app in Hv as [Hv|Hv].
    + apply (Hcross v mx Hv). by left.
    + apply list_elem_of_singleton in Hv as ->. apply Qcle_refl.
Qed.

Lemma first_is_minimum (vals : list Qc) (mn : Qc) :
  merge_sort Qcle vals !! 0%nat = Some mn →
  mn ∈ vals ∧ ∀ v, v ∈ vals → (mn ≤ v)%Qc.
Proof.
  intros Hfirst. pose proof (sorted_Qcle vals) as Hsorted.
  pose proof (merge_sort_Permutation Qcle vals) as Hperm.
  destruct (merge_sort Qcle vals) as [|x l]; [done|].
  injection Hfirst as ->.
  apply StronglySorted_cons in Hsorted as [Hall _]. split.
  - rewrite <-Hperm. by left.
  - intros v Hv. rewrite <-Hperm in Hv.
    apply elem_of_cons in Hv as [->|Hv]; [apply Qcle_refl|].
    rewrite Forall_forall in Hall. by apply Hall.
Qed.

Lemma ranking_starts_with_maximum df n :
  1 ≤ n → (∃ r, r ∈ df ∧ by_ r ≠ None) →
  ∃ r0 x, head (sort_values by_ false df) n !! 0%nat = Some r0 ∧
    r0 ∈ df ∧ by_ r0 = Some x ∧
    ∀ r v, r ∈ df → by_ r = Some v → (v ≤ x)%Qc.
Proof.
  intros Hn (r & Hr & Hpresent).
  destruct (sort_values_descending by_ df)
    as (present & Heq & Hall & Hperm & Hsorted).
  rewrite head_take by lia.
  assert (r ∈ present) as Hin.
  { rewrite <-Hperm, Heq in Hr. apply elem_of_app in Hr as [|Hr]; [done|].
    apply list_elem_of_filter in Hr as [Hna _]. by destruct (by_ r). }
  destruct present as [|r0 present]; [by apply elem_of_nil in Hin|].
  apply Forall_cons in Hall as [Hr0 _].
  destruct (by_ r0) as [x|] eqn:Hx; [|by destruct Hr0].
  exists r0, x. split_and!.
  - rewrite Heq. destruct (Z.to_nat n) eqn:Hz; [lia|done].
  - rewrite <-Hperm, Heq. by left.
  - done.
  - intros r' v Hr' Hv. rewrite <-Hperm, Heq in Hr'. rewrite Heq in Hsorted.
    cbn [app] in Hr', Hsorted.
    apply elem_of_cons in Hr' as [->|Hr'].
    + rewrite Hx in Hv. injection Hv as ->. apply Qcle_refl.
    + apply StronglySorted_cons in Hsorted as [Hfirst _].
      rewrite Forall_forall in Hfirst. specialize (Hfirst r' Hr').
      by rewrite Hx, Hv in Hfirst.
Qed.

Lemma ranking_and_statistics_agree df n :
  1 ≤ n → (∃ r, r ∈ df ∧ by_ r ≠ None) →
  ∃ r0 mx, head (sort_values by_ false df) n !! 0%nat = Some r0 ∧
    by_ r0 = Some mx ∧
    dict_get "max" (dropna_to_dict (describe (by_ <$> df))) = Some mx ∧
    ∀ r v, r ∈ df → by_ r = Some v → (v ≤ mx)%Qc.
Proof.
  intros Hn Hsome.
  destruct (ranking_starts_with_maximum df n Hn Hsome)
    as (r0 & x & Hfirst & Hr0 & Hx & Hmax).
  exists r0, x. split_and!; [done..| |done].
  rewrite describe_max, omap_id_fmap.
  assert (x ∈ omap by_ df) as Hin
    by (apply list_elem_of_omap; by exists r0).
  destruct (last (merge_sort Qcle (omap by_ df))) as [mx|] eqn:Hlast.
  - destruct (last_is_maximum _ _ Hlast) as [Hmx Hle]. f_equal.
    apply Qcle_antisym; [|by apply Hle].
    apply list_elem_of_omap in Hmx as (r & Hr & Hv). by apply (Hmax r).
  - rewrite last_lookup in Hlast. apply lookup_ge_None in Hlast.
    rewrite length_merge_sort_Qcle in Hlast.
    destruct (omap by_ df); [by apply elem_of_nil in Hin|simpl in Hlast; lia].
Qed.
End top_is_max.

(** X18. For [n >= 1] and a dataset with at least one salary, the first
    record of [get_top_earners(n)] carries the highest salary of the
    dataset, which is the [max] of [get_salary_stats()]; likewise the first
    of [get_top_experienced(n)] and the [max] of
    [get_experience_stats()]. *)
Theorem X18_first_of_ranking_is_max `{K : Kernel} (df : DataFrame) (n : Z) :
  1 ≤ n →
  ((∃ r, r ∈ df ∧ salary r ≠ None) →
     ∃ t mx, get_top_earners df n !! 0%nat = Some t ∧
       te_value t = Some mx ∧
       dict_get "max" (get_salary_stats df None) = Some mx ∧
       ∀ r v, r ∈ df → salary r = Some v → (v ≤ mx)%Qc) ∧
  ((∃ r, r ∈ df ∧ years_of_experience r ≠ None) →
     ∃ t mx, get_top_experienced df n !! 0%nat = Some t ∧
       te_value t = Some mx ∧
       dict_get "max" (get_experience_stats df None) = Some mx ∧
       ∀ r v, r ∈ df → years_of_experience r = Some v → (v ≤ mx)%Qc).
Proof.
  intros Hn. split; intros Hsome.
  - destruct (ranking_and_statistics_agree salary df n Hn Hsome)
      as (r0 & mx & Hfirst & Hv & Hmax & Hle).
    exists (top_columns salary r0), mx. split_and!; [|done..].
    unfold get_top_earners. by rewrite list_lookup_fmap, Hfirst.
  - destruct (ranking_and_statistics_agree years_of_experience df n Hn Hsome)
      as (r0 & mx & Hfirst & Hv & Hmax & Hle).
    exists (top_columns years_of_experience r0), mx. split_and!; [|done..].
    unfold get_top_experienced. by rewrite list_lookup_fmap, Hfirst.
Qed.

Lemma X18_first_of_ranking_is_max_witness :
  1 ≤ 1 ∧ (∃ r, r ∈ three_rows ∧ salary r ≠ None) ∧
  ∃ t, @get_top_earners stable_kernel three_rows 1 !! 0%nat = Some t ∧
    te_first_name t = "Bob"%string ∧
    dict_get "max" (@get_salary_stats stable_kernel three_rows None)
      = te_value t.
Proof.
  assert (∃ r, r ∈ three_rows ∧ salary r ≠ None) as Hsome.
  { eexists. split; [by left|done]. }
  split; [lia|]. split; [exact Hsome|].
  destruct (@X18_first_of_ranking_is_max stable_kernel three_rows 1)
    as [Hearn _]; [lia|].
  destruct (Hearn Hsome) as (t & mx & Ht & Hv & Hmax & _).
  exists t. split; [exact Ht|]. split; [|by rewrite Hmax, Hv].
  by injection Ht as <-.
Defined.

(** ** The order of the statistics *)

(** Inequalities between canonical rationals, read as inequalities between
    rationals. *)
Ltac qc_to_q :=
  repeat progress
    (unfold Qcle, Qclt, Qcminus, Qcplus, Qcmult, Qcopp, Q2Qc in *;
     cbn [this] in *; rewrite ?Qred_correct in * ).

Section quantiles.
Implicit Types (sorted : list Qc) (q a b f h : Qc).

Local Open Scope Qc_scope.

Lemma interpolation_between a b f :
  a ≤ b → 0 ≤ f → f ≤ 1 → a ≤ a + f * (b - a) ∧ a + f * (b - a) ≤ b.
Proof. intros Hab H0 H1. qc_to_q. split; nra. Qed.

Lemma interpolation_mono a b f1 f2 :
  a ≤ b → f1 ≤ f2 → a + f1 * (b - a) ≤ a + f2 * (b - a).
Proof. intros Hab Hf. qc_to_q. nra. Qed.

Lemma Qcmult_le_mono_nonneg (n q1 q2 : Qc) :
  0 ≤ n → q1 ≤ q2 → n * q1 ≤ n * q2.
Proof. intros Hn Hq. qc_to_q. nra. Qed.

Lemma Qcminus_le_mono (h1 h2 m : Qc) : h1 ≤ h2 → h1 - m ≤ h2 - m.
Proof. intros Hh. qc_to_q. lra. Qed.

Lemma Qcminus_nonneg (h m : Qc) : m ≤ h → 0 ≤ h - m.
Proof. intros Hh. qc_to_q. lra. Qed.

Lemma Qcminus_le_1 (h m : Qc) : h < m + 1 → h - m ≤ 1.
Proof. intros Hh. qc_to_q. lra. Qed.

Lemma Qcmult_nonneg (m q : Qc) : 0 ≤ m → 0 ≤ q → 0 ≤ m * q.
Proof. intros Hm Hq. qc_to_q. nra. Qed.

Lemma Qcmult_le_self (m q : Qc) : 0 ≤ m → q ≤ 1 → m * q ≤ m.
Proof. intros Hm Hq. qc_to_q. nra. Qed.

Lemma Qfloor_below h : Qc_of_Z (Qfloor h) ≤ h.
Proof. unfold Qcle. simpl. apply Qfloor_le. Qed.

Lemma Qfloor_above h : h < Qc_of_Z (Qfloor h) + 1.
Proof.
  rewrite <-Z2Qc_inj_1, <-Z2Qc_inj_add. unfold Qclt. simpl.
  apply Qlt_floor.
Qed.

Lemma Qfloor_mono h1 h2 : h1 ≤ h2 → (Qfloor h1 ≤ Qfloor h2)%Z.
Proof. intros Hh. by apply Qfloor_resp_le. Qed.

Lemma Qfloor_of_Z (z : Z) : Qfloor (Qc_of_Z z) = z.
Proof. simpl. apply Qfloor_Z. Qed.

Lemma sorted_lookup_le sorted (i j : nat) a b :
  StronglySorted Qcle sorted → (i ≤ j)%nat →
  sorted !! i = Some a → sorted !! j = Some b → a ≤ b.
Proof.
  intros Hsorted. revert i j.
  induction Hsorted as [|x l _ IH Hx]; intros i j Hij Ha Hb; [done|].
  destruct i as [|i], j as [|j]; simpl in *; try lia.
  - injection Ha as <-. injection Hb as <-. reflexivity.
  - injection Ha as <-. rewrite Forall_lookup in Hx. by apply (Hx j).
  - apply (IH i j); [lia|done..].
Qed.
End quantiles.

Section quantile_order.
Implicit Types (sorted : list Qc) (q a b v : Qc).

(** What [quantile] computes on a sorted, non-empty list: the position
    [lo] lies in the list, and the value is interpolated between the
    cell at [lo] and a cell [b] that is the next one, or the same one at
    the end of the list. *)
Lemma quantile_parts sorted q :
  StronglySorted Qcle sorted → (1 ≤ length sorted)%nat →
  (0 ≤ q)%Qc → (q ≤ 1)%Qc →
  let n := Z.of_nat (length sorted) in
  let h := (Qc_of_Z (n - 1) * q)%Qc in
  let lo := Qfloor h in
  0 ≤ lo ≤ n - 1 ∧
  ∃ a b,
    sorted !! Z.to_nat lo = Some a ∧ (a ≤ b)%Qc ∧
    (sorted !! Z.to_nat (lo + 1) = Some b ∨ (lo = n - 1 ∧ b = a)) ∧
    quantile sorted q = Some (a + (h - Qc_of_Z lo) * (b - a))%Qc.
Proof.
  intros Hsorted Hlen Hq0 Hq1 n h lo.
  pose proof (eq_refl : n = Z.of_nat (length sorted)) as Hndef.
  assert (0 ≤ Qc_of_Z (n - 1))%Qc as Hn
    by (rewrite <-Z2Qc_inj_0; apply (proj1 (Z2Qc_inj_le 0 (n - 1))); lia).
  assert (0 ≤ h)%Qc as Hh0.
  { by apply Qcmult_nonneg. }
  assert (h ≤ Qc_of_Z (n - 1))%Qc as Hh1.
  { by apply Qcmult_le_self. }
  assert (0 ≤ lo ≤ n - 1) as Hlo.
  { split.
    - rewrite <-(Qfloor_of_Z 0), Z2Qc_inj_0. by apply Qfloor_mono.
    - rewrite <-(Qfloor_of_Z (n - 1)). by apply Qfloor_mono. }
  split; [done|].
  destruct (lookup_lt_is_Some_2 sorted (Z.to_nat lo)) as [a Ha]; [lia|].
  destruct (sorted !! Z.to_nat (lo + 1)) as [b|] eqn:Hb.
  - exists a, b. split_and!; [done| |by left|].
    + apply (sorted_lookup_le sorted (Z.to_nat lo) (Z.to_nat (lo + 1)));
        [done|lia|done..].
    + unfold quantile. fold n h lo. rewrite Ha. simpl. by rewrite Hb.
  - exists a, a. apply lookup_ge_None in Hb. split_and!; [done..| |].
    + right. split; [lia|done].
    + unfold quantile. fold n h lo. rewrite Ha. simpl.
      apply lookup_ge_None in Hb. by rewrite Hb.
Qed.

Lemma quantile_between sorted q mn mx :
  StronglySorted Qcle sorted →
  (0 ≤ q)%Qc → (q ≤ 1)%Qc →
  sorted !! 0%nat = Some mn → last sorted = Some mx →
  ∃ v, quantile sorted q = Some v ∧ (mn ≤ v)%Qc ∧ (v ≤ mx)%Qc.
Proof.
  intros Hsorted Hq0 Hq1 Hmn Hmx.
  assert (1 ≤ length sorted)%nat as Hlen
    by (apply lookup_lt_Some in Hmn; lia).
  destruct (quantile_parts sorted q Hsorted Hlen Hq0 Hq1)
    as (Hlo & a & b & Ha & Hab & Hb & Hv).
  set (h := (Qc_of_Z (Z.of_nat (length sorted) - 1) * q)%Qc) in *.
  set (lo := Qfloor h) in *.
  eexists. split; [exact Hv|].
  pose proof (Qfloor_below h) as Hf0. pose proof (Qfloor_above h) as Hf1.
  fold lo in Hf0, Hf1.
  destruct (interpolation_between a b (h - Qc_of_Z lo)%Qc Hab) as [Hva Hvb].
  { by apply Qcminus_nonneg. }
  { by apply Qcminus_le_1. }
  rewrite last_lookup in Hmx. split.
  - etrans; [|exact Hva].
    apply (sorted_lookup_le sorted 0 (Z.to_nat lo)); [done|lia|done..].
  - etrans; [exact Hvb|]. destruct Hb as [Hb|[_ ->]].
    + apply (sorted_lookup_le sorted (Z.to_nat (lo + 1))
               (pred (length sorted))); [done| |done..].
      apply lookup_lt_Some in Hb. lia.
    + apply (sorted_lookup_le sorted (Z.to_nat lo) (pred (length sorted)));
        [done|lia|done..].
Qed.

Lemma quantile_mono sorted q1 q2 v1 v2 :
  StronglySorted Qcle sorted → (1 ≤ length sorted)%nat →
  (0 ≤ q1)%Qc → (q1 ≤ q2)%Qc → (q2 ≤ 1)%Qc →
  quantile sorted q1 = Some v1 → quantile sorted q2 = Some v2 →
  (v1 ≤ v2)%Qc.
Proof.
  intros Hsorted Hlen Hq0 Hq12 Hq1 Hv1 Hv2.
  assert (q1 ≤ 1)%Qc as Hq1' by (by etrans).
  assert (0 ≤ q2)%Qc as Hq2' by (by etrans).
  destruct (quantile_parts sorted q1 Hsorted Hlen Hq0 Hq1')
    as (Hlo1 & a1 & b1 & Ha1 & Hab1 & Hb1 & Hw1).
  destruct (quantile_parts sorted q2 Hsorted Hlen Hq2' Hq1)
    as (Hlo2 & a2 & b2 & Ha2 & Hab2 & Hb2 & Hw2).
  set (n := Z.of_nat (length sorted)) in *.
  pose proof (eq_refl : n = Z.of_nat (length sorted)) as Hndef.
  assert (0 ≤ Qc_of_Z (n - 1))%Qc as Hn
    by (rewrite <-Z2Qc_inj_0; apply (proj1 (Z2Qc_inj_le 0 (n - 1))); lia).
  pose proof (Qcmult_le_mono_nonneg _ q1 q2 Hn Hq12) as Hh.
  set (h1 := (Qc_of_Z (n - 1) * q1)%Qc) in *.
  set (h2 := (Qc_of_Z (n - 1) * q2)%Qc) in *.
  pose proof (Qfloor_mono h1 h2 Hh) as Hlo.
  pose proof (Qfloor_below h1) as Hf1. pose proof (Qfloor_above h1) as Hg1.
  pose proof (Qfloor_below h2) as Hf2. pose proof (Qfloor_above h2) as Hg2.
  set (lo1 := Qfloor h1) in *. set (lo2 := Qfloor h2) in *.
  assert (v1 = (a1 + (h1 - Qc_of_Z lo1) * (b1 - a1))%Qc) as ->
    by congruence.
  assert (v2 = (a2 + (h2 - Qc_of_Z lo2) * (b2 - a2))%Qc) as ->
    by congruence.
  clear Hv1 Hv2 Hw1 Hw2.
  destruct (decide (lo1 = lo2)) as [Heq|Hne].
  - rewrite <-Heq in *. rewrite Ha1 in Ha2. injection Ha2 as <-.
    assert (b2 = b1) as ->.
    { destruct Hb1 as [Hb1|[Hl1 ->]], Hb2 as [Hb2|[Hl2 ->]]; try done.
      - rewrite Hb1 in Hb2. by injection Hb2.
      - apply lookup_lt_Some in Hb1. lia.
      - apply lookup_lt_Some in Hb2. lia. }
    apply interpolation_mono; [done|].
    by apply Qcminus_le_mono.
  - destruct (interpolation_between a1 b1 (h1 - Qc_of_Z lo1)%Qc Hab1)
      as [_ Hvb].
    { by apply Qcminus_nonneg. }
    { by apply Qcminus_le_1. }
    destruct (interpolation_between a2 b2 (h2 - Qc_of_Z lo2)%Qc Hab2)
      as [Hva _].
    { by apply Qcminus_nonneg. }
    { by apply Qcminus_le_1. }
    etrans; [exact Hvb|]. etrans; [|exact Hva].
    destruct Hb1 as [Hb1|[Hl1 _]]; [|lia].
    apply (sorted_lookup_le sorted (Z.to_nat (lo1 + 1)) (Z.to_nat lo2));
      [done|lia|done..].
Qed.
End quantile_order.

Section statistics_order.
Context `{K : Kernel}.
Implicit Types (col : list (option Qc)) (df : DataFrame).

Lemma describe_percentiles col :
  let d := dropna_to_dict (describe col) in
  let sorted := merge_sort Qcle (omap id col) in
  dict_get "25%" d = quantile sorted (Q2Qc (1 # 4)) ∧
  dict_get "50%" d = quantile sorted (Q2Qc (1 # 2)) ∧
  dict_get "75%" d = quantile sorted (Q2Qc (3 # 4)).
Proof.
  intros d sorted. unfold d, sorted, describe. clear d sorted.
  set (vals := omap id col). set (sorted := merge_sort Qcle vals).
  destruct (decide (Z.of_nat (length vals) = 0)),
    (decide (Z.of_nat (length vals) ≤ 1)), (sorted !! 0%nat),
    (quantile sorted (Q2Qc (1 # 4))), (quantile sorted (Q2Qc (1 # 2))),
    (quantile sorted (Q2Qc (3 # 4))), (last sorted);
    repeat split; reflexivity.
Qed.

Lemma validate_StatsResponse_fields (d : list (string * Qc)) resp :
  validate_StatsResponse d = Ok resp →
  dict_get "min" d = Some (sr_min resp) ∧
  dict_get "max" d = Some (sr_max resp) ∧
  sr_p25 resp = dict_get "25%" d ∧
  sr_p50 resp = dict_get "50%" d ∧
  sr_p75 resp = dict_get "75%" d.
Proof.
  unfold validate_StatsResponse.
  destruct (dict_get "count" d), (dict_get "mean" d), (dict_get "std" d),
    (dict_get "min" d), (dict_get "max" d); try done.
  by intros [= <-].
Qed.

(** With one value or more, the minimum, the three percentiles and the
    maximum are there and in this order. *)
Lemma describe_order col :
  (1 ≤ length (omap id col))%nat →
  let d := dropna_to_dict (describe col) in
  ∃ mn p25 p50 p75 mx : Qc,
    dict_get "min" d = Some mn ∧ dict_get "25%" d = Some p25 ∧
    dict_get "50%" d = Some p50 ∧ dict_get "75%" d = Some p75 ∧
    dict_get "max" d = Some mx ∧
    (mn ≤ p25)%Qc ∧ (p25 ≤ p50)%Qc ∧ (p50 ≤ p75)%Qc ∧ (p75 ≤ mx)%Qc.
Proof.
  intros Hlen d. unfold d.
  destruct (describe_percentiles col) as (-> & -> & ->).
  rewrite describe_min, describe_max.
  pose proof (sorted_Qcle (omap id col)) as Hsorted.
  pose proof (length_merge_sort_Qcle (omap id col)) as Hlength.
  set (sorted := merge_sort Qcle (omap id col)) in *.
  assert (1 ≤ length sorted)%nat as Hlen' by lia.
  destruct (sorted !! 0%nat) as [mn|] eqn:Hmin;
    [|apply lookup_ge_None in Hmin; lia].
  destruct (last sorted) as [mx|] eqn:Hmax;
    [|rewrite last_lookup in Hmax; apply lookup_ge_None in Hmax; lia].
  assert (0 ≤ Q2Qc (1 # 4))%Qc as H0 by (by vm_compute).
  assert (Q2Qc (1 # 4) ≤ Q2Qc (1 # 2))%Qc as H1 by (by vm_compute).
  assert (Q2Qc (1 # 2) ≤ Q2Qc (3 # 4))%Qc as H2 by (by vm_compute).
  assert (Q2Qc (3 # 4) ≤ 1)%Qc as H3 by (by vm_compute).
  assert (0 ≤ Q2Qc (1 # 2))%Qc as H0' by (by vm_compute).
  assert (0 ≤ Q2Qc (3 # 4))%Qc as H0'' by (by vm_compute).
  assert (Q2Qc (1 # 4) ≤ 1)%Qc as H3' by (by vm_compute).
  assert (Q2Qc (1 # 2) ≤ 1)%Qc as H3'' by (by vm_compute).
  destruct (quantile_between sorted (Q2Qc (1 # 4)) mn mx
              Hsorted H0 H3' Hmin Hmax) as (p25 & Hp25 & Hlow & _).
  destruct (quantile_between sorted (Q2Qc (1 # 2)) mn mx
              Hsorted H0' H3'' Hmin Hmax) as (p50 & Hp50 & _).
  destruct (quantile_between sorted (Q2Qc (3 # 4)) mn mx
              Hsorted H0'' H3 Hmin Hmax) as (p75 & Hp75 & _ & Hhigh).
  exists mn, p25, p50, p75, mx. split_and!; [done..| | |done].
  - exact (quantile_mono sorted (Q2Qc (1 # 4)) (Q2Qc (1 # 2)) p25 p50
             Hsorted Hlen' H0 H1 H3'' Hp25 Hp50).
  - exact (quantile_mono sorted (Q2Qc (1 # 2)) (Q2Qc (3 # 4)) p50 p75
             Hsorted Hlen' H0' H2 H3 Hp50 Hp75).
Qed.
End statistics_order.


